(** * Data pipeline of the toxic-comment classifier: dataset.py and train.py

    A shallow embedding of the label-index map, the vocabulary builder, the
    dataset accessors and the batch collator, followed by the properties
    established about them.

    Modelling conventions.
    - Python [int] is [Z]; Python [str] is [string], read as a sequence of
      code points below 256.
    - A Python [dict] is an association list in insertion order with
      pairwise distinct keys; [dict_set] updates in place or appends.
    - A raised exception is the [Raise] case of [result].
    - The iteration order of a Python [set] is not determined by the
      program; it is a parameter ([SetOrder]), and a theorem stated for
      [so] holds for each admissible order.
    - The file system is a finite map from paths to contents.
    - Library calls whose code is not part of the repository ([csv.reader],
      [nltk.word_tokenize], [float]) are parameters ([Library]).
    - A tensor is a one-dimensional sequence of integers; [val_ratio] is an
      exact rational. *)

From Stdlib Require Import Ascii QArith Qround DecimalString DecimalN.
From stdpp Require Import base tactics option list strings numbers sorting gmap.

Local Open Scope string_scope.
Local Open Scope list_scope.
Local Open Scope Z_scope.

(* ===================================================================== *)
(** ** Exceptions and the error monad *)
(* ===================================================================== *)

Inductive exception : Set :=
  | AssertionError
  | ValueError
  | IndexError
  | KeyError
  | FileNotFoundError.

Inductive result (A : Type) : Type :=
  | Ok (a : A)
  | Raise (e : exception).
Arguments Ok {A} a.
Arguments Raise {A} e.

#[global] Instance result_ret : MRet result := λ A a, Ok a.
#[global] Instance result_bind : MBind result := λ A B f m,
  match m with Ok a => f a | Raise e => Raise e end.
(** [for x in xs: s = f(s, x)] with exceptions. *)
Fixpoint foldM {S X : Type} (f : S → X → result S) (s : S) (xs : list X) : result S :=
  match xs with
  | [] => Ok s
  | x :: xs' => s' ← f s x; foldM f s' xs'
  end.

(** [[f(x) for x in xs]] with exceptions, evaluated left to right. *)
Fixpoint mapM' {X Y : Type} (f : X → result Y) (xs : list X) : result (list Y) :=
  match xs with
  | [] => Ok []
  | x :: xs' => y ← f x; ys ← mapM' f xs'; Ok (y :: ys)
  end.

(* ===================================================================== *)
(** ** Python lists *)
(* ===================================================================== *)

Section py_list.
Context {A : Type}.

(** Index normalisation of [l[i]]: negative indices count from the end. *)
Definition norm_index (n : nat) (i : Z) : option nat :=
  if decide (0 ≤ i < Z.of_nat n) then Some (Z.to_nat i)
  else if decide (- Z.of_nat n ≤ i < 0) then Some (Z.to_nat (Z.of_nat n + i))
  else None.

(** [l[i]] *)
Definition py_getitem (l : list A) (i : Z) : result A :=
  match norm_index (length l) i ≫= (l !!.) with
  | Some x => Ok x
  | None => Raise IndexError
  end.

(** [l[i] = x] *)
Definition py_setitem (l : list A) (i : Z) (x : A) : result (list A) :=
  match norm_index (length l) i with
  | Some k => Ok (<[k:=x]> l)
  | None => Raise IndexError
  end.

(** Clamping of a slice bound. *)
Definition slice_bound (n : nat) (k : Z) : nat :=
  if decide (k < 0) then Z.to_nat (Z.of_nat n + k) else Z.to_nat k.

(** [l[:k]] *)
Definition py_slice_to (l : list A) (k : Z) : list A :=
  take (slice_bound (length l) k) l.

(** [l[k:]] *)
Definition py_slice_from (l : list A) (k : Z) : list A :=
  drop (slice_bound (length l) k) l.

(** [l[a:b]] *)
Definition py_slice (l : list A) (a b : Z) : list A :=
  drop (slice_bound (length l) a) (take (slice_bound (length l) b) l).

Context `{EqDecision A}.

(** [l.index(x)] *)
Definition py_index (l : list A) (x : A) : result Z :=
  match list_find (λ y, y = x) l with
  | Some (k, _) => Ok (Z.of_nat k)
  | None => Raise ValueError
  end.
End py_list.

(* ===================================================================== *)
(** ** Python dicts (insertion ordered) *)
(* ===================================================================== *)

Section py_dict.
Context {K V : Type} `{EqDecision K}.

Definition dict := list (K * V).

(** [d.get(k, None)] *)
Fixpoint dict_get (d : list (K * V)) (k : K) : option V :=
  match d with
  | [] => None
  | (k', v) :: d' => if decide (k' = k) then Some v else dict_get d' k
  end.

(** [d[k] = v]: an existing key keeps its position. *)
Fixpoint dict_set (d : list (K * V)) (k : K) (v : V) : list (K * V) :=
  match d with
  | [] => [(k, v)]
  | (k', v') :: d' =>
      if decide (k' = k) then (k, v) :: d' else (k', v') :: dict_set d' k v
  end.

(** [d[k]] *)
Definition dict_getitem (d : list (K * V)) (k : K) : result V :=
  match dict_get d k with
  | Some v => Ok v
  | None => Raise KeyError
  end.

(** [{k: v for k, v in kvs}] *)
Definition dict_of (kvs : list (K * V)) : list (K * V) :=
  foldl (λ d kv, dict_set d kv.1 kv.2) [] kvs.
End py_dict.

(** [enumerate(l)] *)
Definition enumerate {A : Type} (l : list A) : list (Z * A) :=
  imap (λ i x, (Z.of_nat i, x)) l.

(* ===================================================================== *)
(** ** [sorted(l, key=..., reverse=...)] *)
(* ===================================================================== *)

(** Python's sort is stable, also with [reverse=True]: elements with equal
    keys keep their input order.  There is only one list with that
    property, so insertion from the right computes the same result. *)
Section py_sorted.
Context {A : Type} (key : A → Z) (reverse : bool).

(** [x], which precedes [y] in the input, may stay in front of [y]. *)
Definition stays_before (x y : A) : bool :=
  if reverse then bool_decide (key y ≤ key x) else bool_decide (key x ≤ key y).

Fixpoint sorted_insert (x : A) (l : list A) : list A :=
  match l with
  | [] => [x]
  | y :: l' => if stays_before x y then x :: y :: l' else y :: sorted_insert x l'
  end.

Definition sorted (l : list A) : list A := foldr sorted_insert [] l.
End py_sorted.

(* ===================================================================== *)
(** ** Iteration order of sets *)
(* ===================================================================== *)

(** [list(set(xs))]: some enumeration without repetition of the elements of
    [xs]. *)
Record SetOrder : Type := {
  set_order : list string → list string;
  set_order_NoDup : ∀ xs, NoDup (set_order xs);
  set_order_elem_of : ∀ xs x, x ∈ set_order xs ↔ x ∈ xs;
}.

(** One admissible order, used to run the model on concrete inputs. *)
Definition dedup_order : SetOrder :=
  {| set_order := remove_dups;
     set_order_NoDup := NoDup_remove_dups;
     set_order_elem_of := elem_of_remove_dups |}.

(* ===================================================================== *)
(** ** class LabelIndexMap *)
(* ===================================================================== *)

Record LabelIndexMap : Type := {
  individual_labels : list string;
  label_to_index : list (string * Z);
  index_to_label : list (Z * string);
}.

(** The body of the loop over [required_mappings.items()]. *)
Definition place_required (required_mappings : list (string * Z))
    (labels : list string) (item : string * Z) : result (list string) :=
  let '(element, required_position) := item in
  if decide (Z.of_nat (length labels) ≤ required_position) then Raise ValueError
  else
    occupant ← py_getitem labels required_position;
    if decide (dict_get required_mappings occupant = Some required_position
               ∧ element ≠ occupant)
    then Raise ValueError
    else
      current_position ← py_index labels element;
      moved ← py_getitem labels required_position;
      labels ← py_setitem labels current_position moved;
      py_setitem labels required_position element.

(** The two dict comprehensions that end [__init__]. *)
Definition index_maps (labels : list string) : LabelIndexMap :=
  {| individual_labels := labels;
     label_to_index := dict_of ((λ il : Z * string, (il.2, il.1)) <$> enumerate labels);
     index_to_label := dict_of (enumerate labels) |}.

(** [LabelIndexMap.__init__(all_labels, sort_key, required_mappings)] *)
Definition LabelIndexMap_init (so : SetOrder) (all_labels : list string)
    (sort_key : option (string → Z))
    (required_mappings : option (list (string * Z))) : result LabelIndexMap :=
  if bool_decide (is_Some sort_key ∧ is_Some required_mappings)
  then Raise AssertionError
  else
    let labels := set_order so all_labels in
    let labels :=
      match sort_key with
      | Some key => sorted key false all_labels
      | None => labels
      end in
    labels ←
      match required_mappings with
      | Some R => foldM (place_required R) labels R
      | None => Ok labels
      end;
    Ok (index_maps labels).

(** [LabelIndexMap.__getitem__] *)
Definition LabelIndexMap_getitem (m : LabelIndexMap) (item : string) : result Z :=
  dict_getitem (label_to_index m) item.

(** [LabelIndexMap.__len__] *)
Definition LabelIndexMap_len (m : LabelIndexMap) : Z :=
  Z.of_nat (length (label_to_index m)).

(** [index_to_label[i]] *)
Definition label_of (m : LabelIndexMap) (i : Z) : result string :=
  dict_getitem (index_to_label m) i.

(* ===================================================================== *)
(** ** Python strings *)
(* ===================================================================== *)

Definition code (c : ascii) : N := N_of_ascii c.

(** [c.isspace()] on the code points below 256. *)
Definition isspace (c : ascii) : bool :=
  let n := code c in
  ((9 <=? n) && (n <=? 13) || (28 <=? n) && (n <=? 32)
   || (n =? 133) || (n =? 160))%N.

(** [c.lower()] on the code points below 256. *)
Definition lower_char (c : ascii) : ascii :=
  let n := code c in
  if ((65 <=? n) && (n <=? 90)
      || (192 <=? n) && (n <=? 222) && negb (n =? 215))%N
  then ascii_of_N (n + 32) else c.

(** [s.lower()] *)
Fixpoint lower (s : string) : string :=
  match s with
  | EmptyString => EmptyString
  | String c s' => String (lower_char c) (lower s')
  end.

(** The word that [s] starts with (empty when [s] starts with whitespace)
    and the words after it. *)
Fixpoint split_aux (s : string) : string * list string :=
  match s with
  | EmptyString => (EmptyString, [])
  | String c s' =>
      let '(w, ws) := split_aux s' in
      if isspace c
      then (EmptyString, match w with EmptyString => ws | _ => w :: ws end)
      else (String c w, ws)
  end.

(** [s.split()] *)
Definition str_split (s : string) : list string :=
  let '(w, ws) := split_aux s in
  match w with EmptyString => ws | _ => w :: ws end.

(** [str(n)] for [n >= 0] *)
Definition str_of_N (n : N) : string :=
  DecimalString.NilEmpty.string_of_uint (N.to_uint n).

(** [str(i)], also ["{}".format(i)] *)
Definition str_of_int (i : Z) : string :=
  if decide (i < 0) then String "-" (str_of_N (Z.abs_N i)) else str_of_N (Z.to_N i).

Definition digit_of_char (c : ascii) : option N :=
  let n := code c in
  if ((48 <=? n) && (n <=? 57))%N then Some (n - 48)%N else None.

Fixpoint parse_digits (acc : N) (s : string) : option N :=
  match s with
  | EmptyString => Some acc
  | String c s' => d ← digit_of_char c; parse_digits (10 * acc + d)%N s'
  end.

Definition parse_number (s : string) : option N :=
  match s with
  | EmptyString => None
  | _ => parse_digits 0 s
  end.

(** [int(s)] for a sign followed by ASCII digits.  The other literals that
    Python accepts (surrounding whitespace, underscores between digits,
    digits outside ASCII) are rejected here; [str_of_int] produces none of
    them. *)
Definition int_of_str (s : string) : result Z :=
  let signed :=
    match s with
    | String "-" s' => Z.opp <$> (Z.of_N <$> parse_number s')
    | String "+" s' => Z.of_N <$> parse_number s'
    | _ => Z.of_N <$> parse_number s
    end in
  match signed with
  | Some i => Ok i
  | None => Raise ValueError
  end.

Definition newline : ascii := ascii_of_N 10.
Definition carriage_return : ascii := ascii_of_N 13.
Definition tab : ascii := ascii_of_N 9.

(** [for row in f] on a file opened in text mode: rows end at ["\n"], and
    ["\r"] and ["\r\n"] are read as ["\n"]; a row keeps its ["\n"]. *)
Fixpoint file_rows (s : string) : list string :=
  match s with
  | EmptyString => []
  | String c s' =>
      let rest := file_rows s' in
      if decide (c = newline) then String newline EmptyString :: rest
      else if decide (c = carriage_return) then
        match s' with
        | String c' _ =>
            if decide (c' = newline) then rest
            else String newline EmptyString :: rest
        | EmptyString => String newline EmptyString :: rest
        end
      else
        match rest with
        | [] => [String c EmptyString]
        | r :: rs => String c r :: rs
        end
  end.

(** [''.join(parts)] *)
Definition str_concat (parts : list string) : string :=
  foldr String.app EmptyString parts.

(* ===================================================================== *)
(** ** Files *)
(* ===================================================================== *)

(** The file system: path to content. *)
Definition read_file (fs : gmap string string) (path : string) : result string :=
  match fs !! path with
  | Some content => Ok content
  | None => Raise FileNotFoundError
  end.

Definition write_file (fs : gmap string string) (path content : string)
  : gmap string string := <[path := content]> fs.

(* ===================================================================== *)
(** ** LabelIndexMap.save and LabelIndexMap.load *)
(* ===================================================================== *)

(** ["{}\t{}\n".format(label, index)] *)
Definition save_line (item : string * Z) : string :=
  item.1 +:+ String tab (str_of_int item.2 +:+ String newline EmptyString).

(** What [save] writes. *)
Definition save_text (m : LabelIndexMap) : string :=
  str_concat (save_line <$> label_to_index m).

(** [LabelIndexMap.save(self, filename)] *)
Definition LabelIndexMap_save (m : LabelIndexMap) (fs : gmap string string)
    (filename : string) : gmap string string :=
  write_file fs filename (save_text m).

(** The body of the loop of [load]. *)
Definition load_row (v : list (string * Z)) (row : string) : result (list (string * Z)) :=
  match str_split row with
  | [label; index] => i ← int_of_str index; Ok (dict_set v label i)
  | _ => Raise ValueError
  end.

(** [load] applied to the text of the file. *)
Definition load_text (so : SetOrder) (text : string) : result LabelIndexMap :=
  v ← foldM load_row [] (file_rows text);
  LabelIndexMap_init so v.*1 None (Some v).

(** [LabelIndexMap.load(filename)] *)
Definition LabelIndexMap_load (so : SetOrder) (fs : gmap string string)
    (filename : string) : result LabelIndexMap :=
  text ← read_file fs filename;
  load_text so text.

(* ===================================================================== *)
(** ** Library functions outside the repository *)
(* ===================================================================== *)

Record Library : Type := {
  csv_reader : string → list (list string);  (* list(csv.reader(f, delimiter=',')) *)
  word_tokenize : string → list string;      (* nltk.tokenize.word_tokenize *)
  float_t : Type;                            (* Python float *)
  float : string → result float_t;           (* float(x) *)
}.

(** A library whose csv reader finds the given rows in every file, for
    running the model on concrete inputs; it tokenizes at whitespace and
    reads the class fields as integers. *)
Definition library_of_rows (rows : list (list string)) : Library :=
  {| csv_reader := λ _, rows;
     word_tokenize := str_split;
     float_t := Z;
     float := int_of_str |}.

(* ===================================================================== *)
(** ** compute_vocab *)
(* ===================================================================== *)

(** Lines 15 to 18: the tokens of all rows, counted. *)
Definition count_occurrences (all_words : list string) : list (string * Z) :=
  foldl (λ occurrences word,
           dict_set occurrences word (default 0 (dict_get occurrences word) + 1))
        [] all_words.

Definition all_words_of (tokenizer : string → list string)
    (rows : list (list string)) : result (list string) :=
  words ← mapM' (λ row, text ← py_getitem row 1; Ok (lower <$> tokenizer text)) rows;
  Ok (concat words).

Definition PAD : string := "<PAD>".
Definition UNK : string := "<UNK>".

(** Lines 19 to 24: the set handed to [LabelIndexMap]. *)
Definition select_vocab (occurrences : list (string * Z)) (max_size : option Z)
  : list string :=
  let max_size := default (Z.of_nat (length occurrences)) max_size in
  (py_slice_to (sorted snd true occurrences) (max_size - 1)).*1 ++ [PAD; UNK].

(** Lines 15 to 25: the vocabulary of the parsed rows. *)
Definition compute_vocab_map (so : SetOrder) (rows : list (list string))
    (tokenizer : string → list string) (max_size : option Z) : result LabelIndexMap :=
  all_words ← all_words_of tokenizer rows;
  let occurrences := count_occurrences all_words in
  LabelIndexMap_init so (select_vocab occurrences max_size) None
    (Some [(PAD, 0); (UNK, 1)]).

(** ["{} {}\n".format(label, index)] *)
Definition vocab_line (item : string * Z) : string :=
  item.1 +:+ String " " (str_of_int item.2 +:+ String newline EmptyString).

(** [compute_vocab(csv_file, dst_file, tokenizer, max_size)]: the file
    system after the call. *)
Definition compute_vocab (lib : Library) (so : SetOrder) (fs : gmap string string)
    (csv_file dst_file : string) (tokenizer : string → list string)
    (max_size : option Z) : result (gmap string string) :=
  text ← read_file fs csv_file;
  let rows := csv_reader lib text in
  vocab ← compute_vocab_map so rows tokenizer max_size;
  Ok (write_file fs dst_file (str_concat (vocab_line <$> label_to_index vocab))).

(* ===================================================================== *)
(** ** class ToxicCommentDataset *)
(* ===================================================================== *)

Record ToxicCommentDataset : Type := {
  rows : list (list string);
  vocab : LabelIndexMap;
}.

(** One element of the comprehension of line 94. *)
Definition encode_token (vocab : LabelIndexMap) (token : string) : result Z :=
  let key := lower token in
  fallback ← dict_getitem (label_to_index vocab) UNK;
  Ok (default fallback (dict_get (label_to_index vocab) key)).

(** [ToxicCommentDataset.__getitem__(self, index)] *)
Definition ToxicCommentDataset_getitem (lib : Library) (self : ToxicCommentDataset)
    (index : Z) : result (list Z * list (float_t lib)) :=
  row ← py_getitem (rows self) index;
  text ← py_getitem row 1;
  classes ← mapM' (float lib) (py_slice row 2 8);
  tokens ← mapM' (encode_token (vocab self)) (word_tokenize lib text);
  Ok (tokens, classes).

(** [ToxicCommentDataset.__len__] *)
Definition ToxicCommentDataset_len (self : ToxicCommentDataset) : Z :=
  Z.of_nat (length (rows self)).

(* ===================================================================== *)
(** ** produce_datasets *)
(* ===================================================================== *)

(** The [vocab] argument: a path, a map, or any other object. *)
Inductive vocab_arg : Type :=
  | VocabPath (path : string)
  | VocabMap (m : LabelIndexMap)
  | VocabOther.

(** [int(q)]: truncation towards zero. *)
Definition int_of_Q (q : Q) : Z := Z.quot (Qnum q) (Z.pos (Qden q)).

(** Line 118.  [val_ratio] is an exact rational: the rounding of binary
    floating point is not part of the model. *)
Definition train_size_of (val_ratio : Q) (n : nat) : Z :=
  int_of_Q ((1 - val_ratio) * inject_Z (Z.of_nat n))%Q.

(** Lines 112 to 116: the [vocab] argument as a map. *)
Definition resolve_vocab (so : SetOrder) (fs : gmap string string)
    (vocab : vocab_arg) : result LabelIndexMap :=
  match vocab with
  | VocabPath path => LabelIndexMap_load so fs path
  | VocabMap m => Ok m
  | VocabOther => Raise ValueError
  end.

(** [produce_datasets(csv_file, vocab, val_ratio)] *)
Definition produce_datasets (lib : Library) (so : SetOrder) (fs : gmap string string)
    (csv_file : string) (vocab : vocab_arg) (val_ratio : Q)
  : result (ToxicCommentDataset * ToxicCommentDataset) :=
  text ← read_file fs csv_file;
  let rows := py_slice_from (csv_reader lib text) 1 in
  vocab ← resolve_vocab so fs vocab;
  let train_size := train_size_of val_ratio (length rows) in
  Ok ({| rows := py_slice_to rows train_size; vocab := vocab |},
      {| rows := py_slice_from rows train_size; vocab := vocab |}).

(* ===================================================================== *)
(** ** class CollatePad (train.py) *)
(* ===================================================================== *)

(** A tensor is the sequence of its entries along the variable dimension,
    of dtype long; an example is a tuple of tensors, one for each group. *)
Abbreviation tensor := (list Z) (only parsing).
Abbreviation example := (list (list Z)) (only parsing).

Record CollatePad : Type := { pad_value : Z }.

(** The sort key [len(elem[0])], for an example that has a group 0. *)
Definition group0_len (elem : example) : Z :=
  match elem with
  | t :: _ => Z.of_nat (length t)
  | [] => 0
  end.

(** [batch_size, num_tensors = variable_lengths.shape]: the nested list
    must be a non-empty rectangle. *)
Definition shape2 (variable_lengths : list (list nat)) : result (nat * nat) :=
  match variable_lengths with
  | [] => Raise ValueError
  | r :: rs =>
      if bool_decide (Forall (λ r', length r' = length r) rs)
      then Ok (length variable_lengths, length r)
      else Raise ValueError
  end.

(** [variable_lengths[:, group_index]] *)
Definition column (variable_lengths : list (list nat)) (group_index : nat) : list nat :=
  (λ r, r !!! group_index) <$> variable_lengths.

(** [row[:n] = src] *)
Definition assign_prefix (row : tensor) (n : nat) (src : tensor) : result tensor :=
  if bool_decide (n ≤ length row ∧ length src = n)%nat
  then Ok (src ++ drop n row)
  else Raise ValueError.

(** The body of the inner loop, line 56. *)
Definition fill_row (tensors : list tensor) (padded_tensor : list tensor)
    (item : Z * nat) : result (list tensor) :=
  let '(batch_index, n) := item in
  src ← py_getitem tensors batch_index;
  row ← py_getitem padded_tensor batch_index;
  row' ← assign_prefix row n src;
  py_setitem padded_tensor batch_index row'.

(** The body of the loop over the groups, lines 52 to 58. *)
Definition pad_group (pad_value : Z) (batch : list example)
    (variable_lengths : list (list nat)) (batch_size : nat)
    (item : Z * nat) : result (list tensor * list nat) :=
  let '(group_index, max_length) := item in
  tensors ← mapM' (λ tensors : example, py_getitem tensors group_index) batch;
  let padded_tensor := replicate batch_size (replicate max_length pad_value) in
  let lens := column variable_lengths (Z.to_nat group_index) in
  padded_tensor ← foldM (fill_row tensors) padded_tensor (enumerate lens);
  Ok (padded_tensor, lens).

(** [CollatePad.__call__(self, batch)] *)
Definition CollatePad_call (self : CollatePad) (batch : list example)
  : result (list (list tensor) * list (list nat)) :=
  if bool_decide (Forall (λ elem : example, elem ≠ []) batch) then
    let batch := sorted group0_len true batch in
    let variable_lengths := (λ tensors : example, length <$> tensors) <$> batch in
    '(batch_size, num_tensors) ← shape2 variable_lengths;
    let max_lengths := (λ g, max_list (column variable_lengths g)) <$> seq 0 num_tensors in
    groups ← mapM' (pad_group (pad_value self) batch variable_lengths batch_size)
                   (enumerate max_lengths);
    Ok (groups.*1, groups.*2)
  else Raise IndexError.

(* ===================================================================== *)
(** ** The set-up of the training script (train.py, lines 16 and 64 to 68) *)
(* ===================================================================== *)

Definition train_csv : string :=
  "jigsaw-toxic-comment-classification-challenge/train.csv".
Definition vocab_txt : string :=
  "jigsaw-toxic-comment-classification-challenge/vocab.txt".

(** [val_ratio = 0.2], as the rational it denotes. *)
Definition script_val_ratio : Q := 2 # 10.

(** The datasets and the collator that the script hands to its loaders. *)
Definition train_setup (lib : Library) (so : SetOrder) (fs : gmap string string)
  : result (ToxicCommentDataset * ToxicCommentDataset * CollatePad) :=
  '(ds_train, ds_val) ←
    produce_datasets lib so fs train_csv (VocabPath vocab_txt) script_val_ratio;
  padding_idx ← dict_getitem (label_to_index (vocab ds_train)) PAD;
  Ok (ds_train, ds_val, {| pad_value := padding_idx |}).

(* ===================================================================== *)
(** ** Notions used in the statements *)
(* ===================================================================== *)

(** The items of [label_to_index] when the labels are pairwise distinct. *)
Definition label_items (labels : list string) : list (string * Z) :=
  imap (λ i x, (x, Z.of_nat i)) labels.

(** Every character of [s] satisfies [P]. *)
Fixpoint string_forall (P : ascii → bool) (s : string) : bool :=
  match s with
  | EmptyString => true
  | String c s' => P c && string_forall P s'
  end.

(** A non-empty string without whitespace. *)
Definition is_word (s : string) : Prop :=
  s ≠ EmptyString ∧ string_forall (λ c, negb (isspace c)) s = true.

(** An ASCII digit. *)
Definition is_digit (c : ascii) : bool := bool_decide (is_Some (digit_of_char c)).

(** A character at which text mode ends a row. *)
Definition is_line_break (c : ascii) : bool :=
  bool_decide (c = newline ∨ c = carriage_return).

(** The order of the result: ascending keys, descending with [reverse]. *)
Definition in_order {A : Type} (key : A → Z) (reverse : bool) (x y : A) : Prop :=
  if reverse then key y ≤ key x else key x ≤ key y.

(** A sequence followed by padding up to [n] entries. *)
Definition pad_to (pad : Z) (n : nat) (t : tensor) : tensor :=
  t ++ replicate (n - length t) pad.

(** The length of the group-[g] sequence of an example. *)
Definition group_len (g : nat) (ex : example) : nat := length (ex !!! g).

(** The longest group-[g] sequence of a batch. *)
Definition max_len (g : nat) (batch : list example) : nat :=
  max_list (group_len g <$> batch).

(** The sort key [len]. *)
Definition key_len (s : string) : Z := Z.of_nat (String.length s).

(** How often [w] occurs in [ws]. *)
Definition occurrences_of (w : string) (ws : list string) : nat :=
  length (filter (λ x, x = w) ws).

(* ===================================================================== *)
(** * Properties *)
(* ===================================================================== *)

(** ** The error monad *)

Lemma bind_Ok {A B : Type} (m : result A) (f : A → result B) (b : B) :
  m ≫= f = Ok b ↔ ∃ a, m = Ok a ∧ f a = Ok b.
Proof.
  destruct m as [a|e]; simpl; split.
  - intros H. by exists a.
  - by intros (a' & [= ->] & H).
  - intros [=].
  - by intros (a' & [=] & _).
Qed.

Ltac inv_bind H :=
  repeat match type of H with
  | _ ≫= _ = Ok _ =>
      let x := fresh "x" in
      let Hx := fresh "Hx" in
      apply bind_Ok in H as (x & Hx & H)
  end.

Lemma foldM_cons {S X : Type} (f : S → X → result S) (s : S) (x : X) (xs : list X) :
  foldM f s (x :: xs) = f s x ≫= λ s', foldM f s' xs.
Proof. done. Qed.

Lemma mapM'_Ok_total {X Y : Type} (f : X → result Y) (g : X → Y) (xs : list X) :
  Forall (λ x, f x = Ok (g x)) xs → mapM' f xs = Ok (g <$> xs).
Proof.
  induction 1 as [|x xs Hx _ IH]; [done|].
  simpl. rewrite Hx. simpl. rewrite IH. done.
Qed.

(** ** Python lists *)

Section py_list_facts.
Context {A : Type}.
Implicit Types l : list A.

Lemma norm_index_nonneg (n : nat) (i : Z) :
  0 ≤ i < Z.of_nat n → norm_index n i = Some (Z.to_nat i).
Proof. intros H. unfold norm_index. by rewrite decide_True. Qed.

Lemma norm_index_of_nat (n k : nat) :
  (k < n)%nat → norm_index n (Z.of_nat k) = Some k.
Proof. intros H. rewrite norm_index_nonneg by lia. by rewrite Nat2Z.id. Qed.

Lemma py_getitem_Ok l i x :
  py_getitem l i = Ok x ↔ ∃ k, norm_index (length l) i = Some k ∧ l !! k = Some x.
Proof.
  unfold py_getitem. destruct (norm_index (length l) i) as [k|]; simpl.
  - destruct (l !! k) as [y|] eqn:Hk; split.
    + intros [= ->]. eauto.
    + intros (k' & [= <-] & Hx). congruence.
    + intros [=].
    + intros (k' & [= <-] & Hx). congruence.
  - split; [intros [=] | by intros (k & [=] & _)].
Qed.

Lemma py_getitem_of_nat l (k : nat) x :
  l !! k = Some x → py_getitem l (Z.of_nat k) = Ok x.
Proof.
  intros H. apply py_getitem_Ok. exists k. split; [|done].
  apply norm_index_of_nat. by eapply lookup_lt_Some.
Qed.

Lemma py_setitem_of_nat l (k : nat) x :
  (k < length l)%nat → py_setitem l (Z.of_nat k) x = Ok (<[k:=x]> l).
Proof. intros H. unfold py_setitem. by rewrite norm_index_of_nat. Qed.

(** Exchanging two entries rearranges the list. *)
Lemma swap_Permutation l (i j : nat) x y :
  l !! i = Some x → l !! j = Some y → <[j:=x]> (<[i:=y]> l) ≡ₚ l.
Proof.
  intros Hi Hj.
  assert (i < length l)%nat by (by eapply lookup_lt_Some).
  assert (j < length l)%nat by (by eapply lookup_lt_Some).
  apply Permutation_inj. split; [by rewrite !length_insert|].
  exists (λ k, if decide (k = i) then j else if decide (k = j) then i else k).
  split.
  - intros a b. repeat case_decide; lia.
  - intros k. destruct (decide (k = j)) as [->|Hkj].
    + rewrite list_lookup_insert_eq by (by rewrite length_insert).
      repeat case_decide; subst; congruence.
    + rewrite list_lookup_insert_ne by done.
      destruct (decide (k = i)) as [->|Hki].
      * by rewrite list_lookup_insert_eq.
      * by rewrite list_lookup_insert_ne.
Qed.



Lemma py_slice_to_length l (k : Z) :
  0 ≤ k ≤ Z.of_nat (length l) → Z.of_nat (length (py_slice_to l k)) = k.
Proof.
  intros H. unfold py_slice_to, slice_bound. rewrite decide_False by lia.
  rewrite length_take. lia.
Qed.

Context `{EqDecision A}.

Lemma py_index_Ok l x (c : Z) :
  py_index l x = Ok c → ∃ k : nat, c = Z.of_nat k ∧ l !! k = Some x.
Proof.
  unfold py_index. destruct (list_find _ l) as [[k y]|] eqn:Hf; [|done].
  intros [= <-]. apply list_find_Some in Hf as (Hk & -> & _). eauto.
Qed.

Lemma py_index_elem_of l x :
  x ∈ l → ∃ k : nat, py_index l x = Ok (Z.of_nat k) ∧ l !! k = Some x.
Proof.
  intros Hx. unfold py_index.
  destruct (list_find_elem_of (λ y, y = x) l x Hx eq_refl) as [[k y] Hf].
  rewrite Hf. apply list_find_Some in Hf as (Hk & -> & _). eauto.
Qed.
End py_list_facts.

(** ** Python dicts *)

Section py_dict_facts.
Context {K V : Type} `{EqDecision K}.
Implicit Types d : list (K * V).

Lemma dict_get_Some d k v : dict_get d k = Some v → (k, v) ∈ d.
Proof.
  induction d as [|[k' v'] d IH]; simpl; [done|].
  case_decide as Hk.
  - intros [= ->]. subst. left.
  - intros H. right. auto.
Qed.

Lemma dict_get_elem_of d k v : NoDup d.*1 → (k, v) ∈ d → dict_get d k = Some v.
Proof.
  induction d as [|[k' v'] d IH]; simpl; [by intros _ ?%elem_of_nil|].
  intros [Hk' Hnd]%NoDup_cons [[= -> ->]|Hin]%elem_of_cons.
  - by rewrite decide_True.
  - rewrite decide_False; [auto|].
    intros ->. apply Hk'. apply list_elem_of_fmap. by exists (k, v).
Qed.

Lemma dict_get_None d k : dict_get d k = None ↔ k ∉ d.*1.
Proof.
  induction d as [|[k' v'] d IH]; simpl.
  - split; [intros _ ?%elem_of_nil | ]; done.
  - rewrite not_elem_of_cons. case_decide as Hk.
    + split; [done|]. by intros [? _].
    + rewrite IH. split; [done|]. by intros [_ ?].
Qed.

Lemma dict_set_fresh d k v : k ∉ d.*1 → dict_set d k v = d ++ [(k, v)].
Proof.
  induction d as [|[k' v'] d IH]; simpl; [done|].
  intros [Hne Hk]%not_elem_of_cons. rewrite decide_False by done.
  by rewrite IH.
Qed.

Lemma dict_of_go d (kvs : list (K * V)) :
  NoDup (d.*1 ++ kvs.*1) →
  foldl (λ d kv, dict_set d kv.1 kv.2) d kvs = d ++ kvs.
Proof.
  revert d. induction kvs as [|[k v] kvs IH]; intros d Hnd; simpl.
  - by rewrite app_nil_r.
  - simpl in Hnd. rewrite dict_set_fresh.
    + rewrite IH; [by rewrite <- app_assoc|].
      rewrite fmap_app. simpl. by rewrite <- app_assoc.
    + apply NoDup_app in Hnd as (_ & Hd & _). intros Hk.
      apply (Hd k Hk). left.
Qed.

(** A comprehension over distinct keys lists its items in order. *)
Lemma dict_of_NoDup (kvs : list (K * V)) : NoDup kvs.*1 → dict_of kvs = kvs.
Proof. intros H. unfold dict_of. by rewrite dict_of_go. Qed.
End py_dict_facts.

(** ** The index maps of a list of labels *)

Lemma label_items_keys labels : (label_items labels).*1 = labels.
Proof.
  apply list_eq. intros i. unfold label_items.
  rewrite list_lookup_fmap, list_lookup_imap. by destruct (labels !! i).
Qed.

Lemma label_items_values labels :
  (label_items labels).*2 = Z.of_nat <$> seq 0 (length labels).
Proof.
  apply list_eq. intros i. unfold label_items.
  rewrite !list_lookup_fmap, list_lookup_imap.
  destruct (labels !! i) as [x|] eqn:Hi; simpl.
  - rewrite lookup_seq_lt by (by eapply lookup_lt_Some). done.
  - rewrite lookup_seq_ge; [done|]. by apply lookup_ge_None.
Qed.

Lemma enumerate_keys {A : Type} (l : list A) :
  (enumerate l).*1 = Z.of_nat <$> seq 0 (length l).
Proof.
  apply list_eq. intros i. unfold enumerate.
  rewrite !list_lookup_fmap, list_lookup_imap.
  destruct (l !! i) as [x|] eqn:Hi; simpl.
  - rewrite lookup_seq_lt by (by eapply lookup_lt_Some). done.
  - rewrite lookup_seq_ge; [done|]. by apply lookup_ge_None.
Qed.

Lemma NoDup_indices (n : nat) : NoDup (Z.of_nat <$> seq 0 n).
Proof. apply NoDup_fmap; [apply _|apply NoDup_seq]. Qed.

Lemma elem_of_enumerate {A : Type} (l : list A) (i : Z) (x : A) :
  (i, x) ∈ enumerate l ↔ 0 ≤ i ∧ l !! Z.to_nat i = Some x.
Proof.
  unfold enumerate. rewrite list_elem_of_lookup. setoid_rewrite list_lookup_imap.
  split.
  - intros (k & Hk). destruct (l !! k) as [y|] eqn:Hy; simplify_eq/=.
    rewrite Nat2Z.id. split; [lia|done].
  - intros [Hi Hx]. exists (Z.to_nat i). rewrite Hx. simpl.
    by rewrite Z2Nat.id.
Qed.

Lemma elem_of_label_items labels (x : string) (i : Z) :
  (x, i) ∈ label_items labels ↔ 0 ≤ i ∧ labels !! Z.to_nat i = Some x.
Proof.
  unfold label_items. rewrite list_elem_of_lookup. setoid_rewrite list_lookup_imap.
  split.
  - intros (k & Hk). destruct (labels !! k) as [y|] eqn:Hy; simplify_eq/=.
    rewrite Nat2Z.id. split; [lia|done].
  - intros [Hi Hx]. exists (Z.to_nat i). rewrite Hx. simpl.
    by rewrite Z2Nat.id.
Qed.

Lemma index_to_label_enumerate labels :
  index_to_label (index_maps labels) = enumerate labels.
Proof.
  simpl. apply dict_of_NoDup. rewrite enumerate_keys. apply NoDup_indices.
Qed.

Lemma label_to_index_NoDup labels :
  NoDup labels → label_to_index (index_maps labels) = label_items labels.
Proof.
  intros Hnd. simpl.
  assert ((λ il : Z * string, (il.2, il.1)) <$> enumerate labels
          = label_items labels) as ->.
  { apply list_eq. intros i. unfold enumerate, label_items.
    rewrite list_lookup_fmap, !list_lookup_imap. by destruct (labels !! i). }
  apply dict_of_NoDup. by rewrite label_items_keys.
Qed.

Lemma label_of_lookup labels (i : Z) (x : string) :
  label_of (index_maps labels) i = Ok x ↔ 0 ≤ i ∧ labels !! Z.to_nat i = Some x.
Proof.
  unfold label_of, dict_getitem. rewrite index_to_label_enumerate.
  rewrite <- elem_of_enumerate. split.
  - destruct (dict_get _ i) as [y|] eqn:Hy; [|done].
    intros [= ->]. by apply dict_get_Some.
  - intros Hin. erewrite dict_get_elem_of; [done| |done].
    rewrite enumerate_keys. apply NoDup_indices.
Qed.

Lemma getitem_lookup labels (x : string) (i : Z) :
  NoDup labels →
  LabelIndexMap_getitem (index_maps labels) x = Ok i
  ↔ 0 ≤ i ∧ labels !! Z.to_nat i = Some x.
Proof.
  intros Hnd. unfold LabelIndexMap_getitem, dict_getitem.
  rewrite label_to_index_NoDup by done.
  rewrite <- elem_of_label_items. split.
  - destruct (dict_get _ x) as [y|] eqn:Hy; [|done].
    intros [= ->]. by apply dict_get_Some.
  - intros Hin. erewrite dict_get_elem_of; [done| |done].
    by rewrite label_items_keys.
Qed.

(** ** The placement loop of [__init__] *)

Section placement.
Variable R : list (string * Z).

(** A successful step exchanges two entries of the list. *)
Lemma place_required_inv labels element required_position labels' :
  place_required R labels (element, required_position) = Ok labels' →
  ∃ (c k : nat) (o : string),
    labels !! c = Some element ∧ labels !! k = Some o
    ∧ norm_index (length labels) required_position = Some k
    ∧ labels' = <[k:=element]> (<[c:=o]> labels).
Proof.
  unfold place_required. case_decide as Hrange; [done|].
  intros H. apply bind_Ok in H as (o & Ho & H).
  case_decide as Hconflict; [done|].
  apply bind_Ok in H as (c & Hc & H).
  apply bind_Ok in H as (o' & Ho' & H).
  apply bind_Ok in H as (l1 & Hl1 & H).
  rewrite Ho in Ho'. injection Ho' as <-.
  apply py_getitem_Ok in Ho as (k & Hk & Hko).
  apply py_index_Ok in Hc as (c' & -> & Hc).
  rewrite py_setitem_of_nat in Hl1 by (by eapply lookup_lt_Some).
  injection Hl1 as <-.
  unfold py_setitem in H. rewrite length_insert, Hk in H. injection H as <-.
  by exists c', k, o.
Qed.

Lemma place_required_Permutation labels item labels' :
  place_required R labels item = Ok labels' → labels' ≡ₚ labels.
Proof.
  destruct item as [element required_position].
  intros (c & k & o & Hc & Hk & _ & ->)%place_required_inv.
  by eapply swap_Permutation.
Qed.

(** Whatever the required positions are, a construction that succeeds
    has only rearranged the labels. *)
Lemma place_loop_Permutation items labels labels' :
  foldM (place_required R) labels items = Ok labels' → labels' ≡ₚ labels.
Proof.
  revert labels. induction items as [|item items IH]; intros labels; simpl.
  - by intros [= ->].
  - intros H. apply bind_Ok in H as (l1 & Hl1 & H).
    rewrite (IH _ H). by eapply place_required_Permutation.
Qed.

(** A step succeeds when the label is present, the position is in range
    and the occupant of the position is not required there itself. *)
Lemma place_required_Ok labels element (p : nat) :
  element ∈ labels →
  (p < length labels)%nat →
  (∀ o, labels !! p = Some o → dict_get R o = Some (Z.of_nat p) → o = element) →
  ∃ (c : nat) (o : string),
    labels !! c = Some element ∧ labels !! p = Some o
    ∧ place_required R labels (element, Z.of_nat p)
      = Ok (<[p:=element]> (<[c:=o]> labels)).
Proof.
  intros Hin Hp Hocc.
  destruct (lookup_lt_is_Some_2 labels p Hp) as [o Ho].
  destruct (py_index_elem_of labels element Hin) as (c & Hc & Hce).
  exists c, o. split_and!; [done..|].
  unfold place_required. rewrite decide_False by lia.
  rewrite (py_getitem_of_nat _ _ _ Ho). simpl.
  rewrite decide_False.
  - rewrite Hc. simpl.
    rewrite py_setitem_of_nat by (by eapply lookup_lt_Some). simpl.
    rewrite py_setitem_of_nat by (by rewrite length_insert). done.
  - intros [Hget Hne]. apply Hne. symmetry. by apply Hocc.
Qed.

Hypothesis R_keys : NoDup R.*1.
Hypothesis R_positions : ∀ e1 e2 p, (e1, p) ∈ R → (e2, p) ∈ R → e1 = e2.

(** The loop over a suffix of the required mappings: the labels already
    placed stay where they are, and each step places one more. *)
Lemma place_loop_Ok items done labels :
  R = done ++ items →
  NoDup labels →
  (∀ e p, (e, p) ∈ R → e ∈ labels ∧ 0 ≤ p < Z.of_nat (length labels)) →
  (∀ e p, (e, p) ∈ done → labels !! Z.to_nat p = Some e) →
  ∃ labels',
    foldM (place_required R) labels items = Ok labels'
    ∧ labels' ≡ₚ labels
    ∧ ∀ e p, (e, p) ∈ R → labels' !! Z.to_nat p = Some e.
Proof.
  revert done labels.
  induction items as [|[e p] items IH]; intros done labels HR Hnd Hin Hdone.
  - exists labels. split_and!; [done..|].
    intros e p He. apply Hdone. by rewrite HR, app_nil_r in He.
  - assert ((e, p) ∈ R) as HeR by (rewrite HR; apply elem_of_app; right; left).
    destruct (Hin e p HeR) as [He Hp].
    destruct (place_required_Ok labels e (Z.to_nat p)) as (c & o & Hc & Ho & Hstep).
    { done. }
    { lia. }
    { intros o Ho Hget. apply dict_get_Some in Hget.
      rewrite Z2Nat.id in Hget by lia. by eapply R_positions. }
    rewrite Z2Nat.id in Hstep by lia.
    set (labels1 := <[Z.to_nat p:=e]> (<[c:=o]> labels)) in *.
    assert (labels1 ≡ₚ labels) as Hperm by (by eapply swap_Permutation).
    destruct (IH (done ++ [(e, p)]) labels1) as (labels' & Hloop & Hperm' & Hall).
    + by rewrite <- app_assoc.
    + by rewrite Hperm.
    + intros e' p' He'. rewrite Hperm. auto.
    + intros e' p' [He'|He']%elem_of_app.
      * assert (e' ≠ e) as Hne.
        { intros ->. rewrite HR, fmap_app in R_keys. simpl in R_keys.
          apply NoDup_app in R_keys as (_ & Hdisj & _).
          apply (Hdisj e).
          - apply list_elem_of_fmap. by exists (e, p').
          - left. }
        assert ((e', p') ∈ R) as He'R by (rewrite HR; apply elem_of_app; by left).
        destruct (Hin e' p' He'R) as [_ Hp'].
        assert (Z.to_nat p' ≠ Z.to_nat p) as Hpp.
        { intros Heq. assert (p' = p) as -> by lia. by eauto. }
        assert (Z.to_nat p' ≠ c) as Hpc.
        { intros <-. rewrite (Hdone e' p' He') in Hc. congruence. }
        unfold labels1.
        rewrite list_lookup_insert_ne by done.
        rewrite list_lookup_insert_ne by done. auto.
      * apply list_elem_of_singleton in He'. injection He' as -> ->.
        unfold labels1. apply list_lookup_insert_eq.
        rewrite length_insert. lia.
    + exists labels'. rewrite foldM_cons, Hstep.
      split_and!; [done| |done]. by rewrite Hperm'.
Qed.
End placement.

(** ** The constructor *)

Lemma LabelIndexMap_init_required so all_labels R :
  LabelIndexMap_init so all_labels None (Some R)
  = (labels ← foldM (place_required R) (set_order so all_labels) R;
     Ok (index_maps labels)).
Proof. done. Qed.

Lemma LabelIndexMap_init_plain so all_labels :
  LabelIndexMap_init so all_labels None None
  = Ok (index_maps (set_order so all_labels)).
Proof. done. Qed.

(** Without [sort_key], a constructed map lists the distinct labels of
    [all_labels], each once. *)
Lemma LabelIndexMap_init_labels so all_labels required_mappings m :
  LabelIndexMap_init so all_labels None required_mappings = Ok m →
  m = index_maps (individual_labels m)
  ∧ individual_labels m ≡ₚ set_order so all_labels
  ∧ NoDup (individual_labels m).
Proof.
  destruct required_mappings as [R|].
  - rewrite LabelIndexMap_init_required. intros H.
    apply bind_Ok in H as (labels & Hloop & [= <-]).
    apply place_loop_Permutation in Hloop. simpl. split_and!; [done..|].
    rewrite Hloop. apply set_order_NoDup.
  - rewrite LabelIndexMap_init_plain. intros [= <-]. simpl.
    split_and!; [done..|]. apply set_order_NoDup.
Qed.

(** Construction with consistent required mappings succeeds; the labels
    are rearranged and each required label sits at its position. *)
Lemma LabelIndexMap_init_required_Ok so all_labels (R : list (string * Z)) :
  NoDup R.*1 →
  (∀ label p, (label, p) ∈ R →
     label ∈ all_labels ∧ 0 ≤ p < Z.of_nat (length (set_order so all_labels))) →
  (∀ label1 label2 p, (label1, p) ∈ R → (label2, p) ∈ R → label1 = label2) →
  ∃ labels,
    LabelIndexMap_init so all_labels None (Some R) = Ok (index_maps labels)
    ∧ labels ≡ₚ set_order so all_labels
    ∧ ∀ label p, (label, p) ∈ R → labels !! Z.to_nat p = Some label.
Proof.
  intros Hkeys Hin Hinj.
  destruct (place_loop_Ok R Hkeys Hinj R [] (set_order so all_labels))
    as (labels & Hloop & Hperm & Hall).
  - done.
  - apply set_order_NoDup.
  - intros e p He. destruct (Hin e p He) as [? ?].
    split; [by apply set_order_elem_of|done].
  - by intros e p ?%elem_of_nil.
  - exists labels. by rewrite LabelIndexMap_init_required, Hloop.
Qed.

(** C1. For every label collection [all_labels] and every
    [required_mappings] dict whose labels all occur in [all_labels], whose
    positions lie in [[0, N)] for the [N] distinct labels, and in which no
    two labels ask for the same position, the construction
    [LabelIndexMap(all_labels, required_mappings=R)] succeeds and
    [index_of(label) == R[label]] for every label of [R]. *)
Theorem required_labels_at_required_index
    (so : SetOrder) (all_labels : list string) (R : list (string * Z)) :
  NoDup R.*1 →
  (∀ label p, (label, p) ∈ R →
     label ∈ all_labels ∧ 0 ≤ p < Z.of_nat (length (set_order so all_labels))) →
  (∀ label1 label2 p, (label1, p) ∈ R → (label2, p) ∈ R → label1 = label2) →
  ∃ m, LabelIndexMap_init so all_labels None (Some R) = Ok m
       ∧ ∀ label p, (label, p) ∈ R → LabelIndexMap_getitem m label = Ok p.
Proof.
  intros Hkeys Hin Hinj.
  destruct (LabelIndexMap_init_required_Ok so all_labels R Hkeys Hin Hinj)
    as (labels & Hinit & Hperm & Hall).
  exists (index_maps labels). split; [done|]. intros label p Hlp.
  apply getitem_lookup.
  - rewrite Hperm. apply set_order_NoDup.
  - destruct (Hin label p Hlp) as [_ Hp]. split; [lia|]. by apply Hall.
Qed.

Lemma required_labels_at_required_index_witness :
  ∃ m, LabelIndexMap_init dedup_order ["a"; "b"; "c"; "b"] None
         (Some [("c", 0); ("a", 1)]) = Ok m
       ∧ ∀ label p, (label, p) ∈ [("c", 0); ("a", 1)] →
                    LabelIndexMap_getitem m label = Ok p.
Proof.
  apply (required_labels_at_required_index dedup_order
           ["a"; "b"; "c"; "b"] [("c", 0); ("a", 1)]).
  - compute_done.
  - intros label p Hin.
    repeat (apply elem_of_cons in Hin as [[= -> ->]|Hin]);
      [split; [compute_done|vm_compute; done]..
      | by apply elem_of_nil in Hin].
  - intros l1 l2 p H1 H2.
    repeat (apply elem_of_cons in H1 as [[= -> ->]|H1]);
    repeat (apply elem_of_cons in H2 as [[= ->]|H2]);
    try done; by apply elem_of_nil in H1 || by apply elem_of_nil in H2.
Defined.

(** ** Strings: words, numbers, rows *)

Lemma str_app_nil_l s : EmptyString +:+ s = s.
Proof. done. Qed.

Lemma str_app_cons c s t : String c s +:+ t = String c (s +:+ t).
Proof. done. Qed.

Lemma str_app_nil_r s : s +:+ EmptyString = s.
Proof. induction s as [|c s IH]; [done|]. by rewrite str_app_cons, IH. Qed.

Lemma string_forall_app P s t :
  string_forall P (s +:+ t) = string_forall P s && string_forall P t.
Proof.
  induction s as [|c s IH]; [done|].
  rewrite str_app_cons. simpl. by rewrite IH, andb_assoc.
Qed.

Lemma string_forall_impl (P Q : ascii → bool) s :
  (∀ c, P c = true → Q c = true) →
  string_forall P s = true → string_forall Q s = true.
Proof.
  intros HPQ. induction s as [|c s IH]; simpl; [done|].
  intros [Hc Hs]%andb_true_iff. apply andb_true_iff. auto.
Qed.

Lemma split_aux_word w s :
  string_forall (λ c, negb (isspace c)) w = true →
  split_aux (w +:+ s) = (w +:+ (split_aux s).1, (split_aux s).2).
Proof.
  induction w as [|c w IH].
  - intros _. rewrite !str_app_nil_l. by destruct (split_aux s).
  - intros [Hc Hw]%andb_true_iff. rewrite !str_app_cons. simpl.
    rewrite (IH Hw). apply negb_true_iff in Hc. by rewrite Hc.
Qed.

Lemma split_aux_space c s :
  isspace c = true →
  split_aux (String c s)
  = (EmptyString,
     match (split_aux s).1 with
     | EmptyString => (split_aux s).2
     | w => w :: (split_aux s).2
     end).
Proof.
  intros Hc. simpl. destruct (split_aux s) as [w ws]. rewrite Hc. simpl.
  by destruct w.
Qed.

(** Two words around one whitespace character, then a newline. *)
Lemma str_split_two_fields w1 sep w2 :
  is_word w1 → isspace sep = true → is_word w2 →
  str_split (w1 +:+ String sep (w2 +:+ String newline EmptyString)) = [w1; w2].
Proof.
  intros [Hne1 Hw1] Hsep [Hne2 Hw2]. unfold str_split.
  rewrite (split_aux_word _ _ Hw1), (split_aux_space _ _ Hsep).
  rewrite (split_aux_word _ _ Hw2), (split_aux_space newline) by done.
  simpl. rewrite !str_app_nil_r.
  destruct w2; [done|]. by destruct w1.
Qed.

Lemma digit_not_space c : is_digit c = true → isspace c = false.
Proof.
  unfold is_digit, digit_of_char, isspace, code.
  intros [d Hd]%bool_decide_eq_true.
  destruct (_ && _)%N eqn:Hrange in Hd; [|done].
  apply andb_true_iff in Hrange as [H1%N.leb_le H2%N.leb_le].
  repeat match goal with
  | |- (_ || _) = false => apply orb_false_iff; split
  | |- (_ && _)%N = false => apply andb_false_iff
  end; rewrite ?N.leb_gt, ?N.eqb_neq; lia.
Qed.

Lemma string_of_uint_digits d :
  string_forall is_digit (DecimalString.NilEmpty.string_of_uint d) = true.
Proof. induction d; simpl; auto. Qed.

Lemma str_of_N_nonempty n : str_of_N n ≠ EmptyString.
Proof.
  unfold str_of_N. destruct n as [|p]; [done|]. simpl.
  pose proof (DecimalPos.Unsigned.to_uint_nonnil p) as Hnil.
  by destruct (Pos.to_uint p).
Qed.

Lemma str_of_N_word n : is_word (str_of_N n).
Proof.
  split; [apply str_of_N_nonempty|].
  eapply string_forall_impl; [|apply string_of_uint_digits].
  intros c Hc. by rewrite (digit_not_space c Hc).
Qed.

Lemma str_of_int_word i : is_word (str_of_int i).
Proof.
  unfold str_of_int. case_decide; [|apply str_of_N_word].
  split; [done|]. simpl. apply (str_of_N_word (Z.abs_N i)).
Qed.

Lemma parse_digits_pos d acc :
  parse_digits (N.pos acc) (DecimalString.NilEmpty.string_of_uint d)
  = Some (N.pos (Pos.of_uint_acc d acc)).
Proof.
  revert acc. induction d; intros acc; simpl; [done|..];
    match goal with
    | |- parse_digits ?n _ = _ => rewrite <- IHd; f_equal; lia
    end.
Qed.

Lemma parse_digits_uint d :
  parse_digits 0 (DecimalString.NilEmpty.string_of_uint d) = Some (N.of_uint d).
Proof.
  unfold N.of_uint. induction d; simpl; [done|done|..];
    match goal with
    | |- parse_digits ?n _ = _ => by rewrite <- parse_digits_pos
    end.
Qed.

Lemma parse_number_str n : parse_number (str_of_N n) = Some n.
Proof.
  unfold parse_number. pose proof (str_of_N_nonempty n) as Hne.
  destruct (str_of_N n) eqn:Hs; [done|]. rewrite <- Hs. unfold str_of_N.
  by rewrite parse_digits_uint, DecimalN.Unsigned.of_to.
Qed.

Lemma str_of_N_head n c s :
  str_of_N n = String c s → is_digit c = true.
Proof.
  intros Hs. pose proof (string_of_uint_digits (N.to_uint n)) as Hd.
  unfold str_of_N in Hs. rewrite Hs in Hd. simpl in Hd.
  by apply andb_true_iff in Hd as [? _].
Qed.

(** [int(str(i)) == i] *)
Lemma int_of_str_of_int i : int_of_str (str_of_int i) = Ok i.
Proof.
  unfold str_of_int, int_of_str. case_decide as Hi.
  - rewrite parse_number_str. simpl. f_equal. lia.
  - pose proof (parse_number_str (Z.to_N i)) as Hp.
    destruct (str_of_N (Z.to_N i)) as [|c s] eqn:Hs; [done|].
    pose proof (str_of_N_head _ _ _ Hs) as Hc.
    assert (Z.of_N <$> parse_number (String c s) = Some i) as Hres.
    { rewrite Hp. simpl. f_equal. lia. }
    destruct (decide (c = "-"%char)) as [->|?]; [done|].
    destruct (decide (c = "+"%char)) as [->|?]; [done|].
    assert (match String c s with
            | String "-" s' => Z.opp <$> (Z.of_N <$> parse_number s')
            | String "+" s' => Z.of_N <$> parse_number s'
            | _ => Z.of_N <$> parse_number (String c s)
            end = Z.of_N <$> parse_number (String c s)) as ->.
    { destruct c as [[] [] [] [] [] [] [] []]; done. }
    by rewrite Hres.
Qed.

Lemma str_app_assoc s t u : (s +:+ t) +:+ u = s +:+ (t +:+ u).
Proof. induction s as [|c s IH]; [done|]. by rewrite !str_app_cons, IH. Qed.

Lemma line_break_space c : is_line_break c = true → isspace c = true.
Proof. intros [-> | ->]%bool_decide_eq_true; done. Qed.

Lemma word_no_line_break w :
  string_forall (λ c, negb (isspace c)) w = true →
  string_forall (λ c, negb (is_line_break c)) w = true.
Proof.
  apply string_forall_impl. intros c Hc.
  destruct (is_line_break c) eqn:Hb; [|done].
  by rewrite (line_break_space c Hb) in Hc.
Qed.

(** Reading back a row that was written with its newline. *)
Lemma file_rows_line body rest :
  string_forall (λ c, negb (is_line_break c)) body = true →
  file_rows (body +:+ String newline rest)
  = (body +:+ String newline EmptyString) :: file_rows rest.
Proof.
  induction body as [|c body IH].
  - intros _. rewrite !str_app_nil_l. done.
  - intros [Hc Hbody]%andb_true_iff. rewrite !str_app_cons. simpl.
    rewrite (IH Hbody).
    apply negb_true_iff, bool_decide_eq_false in Hc.
    rewrite !decide_False by tauto. done.
Qed.

Section rows_of_items.
Variable sep : ascii.
Hypothesis sep_space : isspace sep = true.
Hypothesis sep_no_break : is_line_break sep = false.

(** ["{}<sep>{}\n".format(label, index)] *)
Let line (item : string * Z) : string :=
  item.1 +:+ String sep (str_of_int item.2 +:+ String newline EmptyString).

Lemma load_row_line v item :
  is_word item.1 → load_row v (line item) = Ok (dict_set v item.1 item.2).
Proof.
  intros Hw. unfold load_row, line.
  rewrite str_split_two_fields by (done || apply str_of_int_word).
  by rewrite int_of_str_of_int.
Qed.

Lemma file_rows_lines item items :
  is_word item.1 →
  file_rows (str_concat (line <$> item :: items))
  = line item :: file_rows (str_concat (line <$> items)).
Proof.
  intros [_ Hw]. simpl. unfold line at 1 3.
  change (String sep (?s +:+ ?t)) with (String sep s +:+ t).
  rewrite <- !str_app_assoc.
  rewrite (str_app_assoc _ (String newline EmptyString)).
  change (String newline EmptyString +:+ ?t) with (String newline t).
  apply file_rows_line.
  rewrite string_forall_app. apply andb_true_iff. split.
  - by apply word_no_line_break.
  - simpl. rewrite sep_no_break. simpl.
    apply word_no_line_break, str_of_int_word.
Qed.

(** The loop of [load] rebuilds the dict whose items were written. *)
Lemma load_rows_lines items v :
  Forall (λ item : string * Z, is_word item.1) items →
  foldM load_row v (file_rows (str_concat (line <$> items)))
  = Ok (foldl (λ d kv, dict_set d kv.1 kv.2) v items).
Proof.
  intros Hwords. revert v.
  induction Hwords as [|item items Hw _ IH]; intros v; [done|].
  rewrite file_rows_lines by done.
  rewrite foldM_cons, load_row_line by done. apply IH.
Qed.
End rows_of_items.

(** Loading the lines of a map with pairwise distinct word labels gives the
    map back, whichever separator the writer used. *)
Lemma load_text_lines so (sep : ascii) labels :
  isspace sep = true → is_line_break sep = false →
  NoDup labels → Forall is_word labels →
  load_text so
    (str_concat ((λ item : string * Z,
        item.1 +:+ String sep (str_of_int item.2 +:+ String newline EmptyString))
      <$> label_items labels))
  = Ok (index_maps labels).
Proof.
  intros Hsep Hbreak Hnd Hwords. unfold load_text.
  rewrite (load_rows_lines sep Hsep Hbreak).
  2:{ apply Forall_forall. intros [x i] (_ & Hx)%elem_of_label_items.
      rewrite Forall_forall in Hwords. apply Hwords.
      by eapply list_elem_of_lookup_2. }
  change (foldl _ [] (label_items labels)) with (dict_of (label_items labels)).
  rewrite dict_of_NoDup by (by rewrite label_items_keys).
  simpl. rewrite label_items_keys, LabelIndexMap_init_required.
  destruct (place_loop_Ok (label_items labels)) with
    (items := label_items labels) (done := @nil (string * Z))
    (labels := set_order so labels) as (labels' & Hloop & Hperm & Hall).
  - by rewrite label_items_keys.
  - intros e1 e2 p (_ & H1)%elem_of_label_items (_ & H2)%elem_of_label_items.
    congruence.
  - done.
  - apply set_order_NoDup.
  - assert (length (set_order so labels) = length labels) as ->.
    { apply Permutation_length, NoDup_Permutation;
        [apply set_order_NoDup|done|apply set_order_elem_of]. }
    intros e p (Hp & He)%elem_of_label_items. split.
    + apply set_order_elem_of. by eapply list_elem_of_lookup_2.
    + apply lookup_lt_Some in He. lia.
  - by intros e p ?%elem_of_nil.
  - rewrite Hloop. simpl. do 2 f_equal.
    assert (length labels' = length labels) as Hlen.
    { rewrite Hperm. apply Permutation_length, NoDup_Permutation;
        [apply set_order_NoDup|done|apply set_order_elem_of]. }
    apply list_eq. intros i.
    destruct (labels !! i) as [x|] eqn:Hx.
    + specialize (Hall x (Z.of_nat i)). rewrite Nat2Z.id in Hall.
      apply Hall, elem_of_label_items. rewrite Nat2Z.id. split; [lia|done].
    + apply lookup_ge_None. apply lookup_ge_None in Hx. lia.
Qed.

(** Round trip of [save] and [load] for a map whose labels are pairwise
    distinct words. *)
Lemma load_save_roundtrip so labels :
  NoDup labels → Forall is_word labels →
  load_text so (save_text (index_maps labels)) = Ok (index_maps labels).
Proof.
  intros Hnd Hwords. unfold save_text.
  rewrite label_to_index_NoDup by done.
  by apply (load_text_lines so tab).
Qed.

Lemma load_saved_file so m (fs : gmap string string) filename :
  LabelIndexMap_load so (LabelIndexMap_save m fs filename) filename
  = load_text so (save_text m).
Proof.
  unfold LabelIndexMap_load, LabelIndexMap_save, read_file, write_file.
  by rewrite lookup_insert_eq.
Qed.

(** Saving to a file and loading the file: every map constructed without
    [sort_key] from labels that are words comes back unchanged. *)
Lemma load_save_file_roundtrip so all_labels required_mappings m
    (fs : gmap string string) filename :
  LabelIndexMap_init so all_labels None required_mappings = Ok m →
  Forall is_word all_labels →
  LabelIndexMap_load so (LabelIndexMap_save m fs filename) filename = Ok m.
Proof.
  intros (Hm & Hperm & Hnd)%LabelIndexMap_init_labels Hwords.
  rewrite load_saved_file, Hm. apply load_save_roundtrip; [done|].
  rewrite Hperm. apply Forall_forall. intros x Hx%set_order_elem_of.
  rewrite Forall_forall in Hwords. auto.
Qed.

(** ** [sorted] is a stable sort *)

Section sorted_facts.
Context {A : Type} (key : A → Z) (reverse : bool).
Local Abbreviation ord := (in_order key reverse).

Lemma stays_before_true x y :
  stays_before key reverse x y = true ↔ ord x y.
Proof. unfold stays_before, in_order. destruct reverse; apply bool_decide_eq_true. Qed.

Lemma stays_before_false x y :
  stays_before key reverse x y = false → ord y x ∧ key x ≠ key y.
Proof.
  unfold stays_before, in_order.
  destruct reverse; intros H%bool_decide_eq_false; lia.
Qed.

Lemma in_order_trans x y z : ord x y → ord y z → ord x z.
Proof. unfold in_order. destruct reverse; lia. Qed.

Lemma sorted_insert_Permutation x l : sorted_insert key reverse x l ≡ₚ x :: l.
Proof.
  induction l as [|y l IH]; simpl; [done|].
  destruct (stays_before key reverse x y); [done|].
  rewrite IH. apply Permutation_swap.
Qed.

Lemma sorted_Permutation l : sorted key reverse l ≡ₚ l.
Proof.
  induction l as [|x l IH]; simpl; [done|].
  by rewrite sorted_insert_Permutation, IH.
Qed.

Lemma sorted_insert_StronglySorted x l :
  StronglySorted ord l → StronglySorted ord (sorted_insert key reverse x l).
Proof.
  induction 1 as [|y l Hl IH Hy]; simpl.
  - repeat constructor.
  - destruct (stays_before key reverse x y) eqn:Hxy.
    + apply stays_before_true in Hxy. constructor; [by constructor|].
      constructor; [done|].
      eapply Forall_impl; [exact Hy|]. intros z. by apply in_order_trans.
    + apply stays_before_false in Hxy as [Hyx _]. constructor; [done|].
      rewrite sorted_insert_Permutation. by constructor.
Qed.

Lemma sorted_StronglySorted l : StronglySorted ord (sorted key reverse l).
Proof.
  induction l as [|x l IH]; simpl; [constructor|].
  by apply sorted_insert_StronglySorted.
Qed.

Lemma sorted_insert_stable (k : Z) x l :
  filter (λ y, key y = k) (sorted_insert key reverse x l)
  = filter (λ y, key y = k) (x :: l).
Proof.
  induction l as [|y l IH]; simpl; [done|].
  destruct (stays_before key reverse x y) eqn:Hxy; [done|].
  apply stays_before_false in Hxy as [_ Hne].
  rewrite (filter_cons _ y), IH, !filter_cons.
  repeat case_decide; congruence.
Qed.

(** Elements with the same key keep their order in the input. *)
Lemma sorted_stable (k : Z) l :
  filter (λ y, key y = k) (sorted key reverse l) = filter (λ y, key y = k) l.
Proof.
  induction l as [|x l IH]; simpl; [done|].
  by rewrite sorted_insert_stable, !filter_cons, IH.
Qed.
End sorted_facts.

(** ** The collator *)

Lemma max_list_Permutation (l k : list nat) : l ≡ₚ k → max_list l = max_list k.
Proof. induction 1; simpl; lia. Qed.

Lemma pad_to_length pad n t : (length t ≤ n)%nat → length (pad_to pad n t) = n.
Proof. intros H. unfold pad_to. rewrite length_app, length_replicate. lia. Qed.

Lemma pad_to_lookup_lt pad n t (j : nat) :
  (j < length t)%nat → pad_to pad n t !! j = t !! j.
Proof. intros H. unfold pad_to. by rewrite lookup_app_l. Qed.

Lemma pad_to_lookup_ge pad n t (j : nat) :
  (length t ≤ j < n)%nat → pad_to pad n t !! j = Some pad.
Proof.
  intros H. unfold pad_to. rewrite lookup_app_r by lia.
  apply lookup_replicate_2. lia.
Qed.

Lemma fill_row_Ok (tensors padded : list tensor) (k : nat) (src row : tensor) :
  tensors !! k = Some src → padded !! k = Some row →
  (length src ≤ length row)%nat →
  fill_row tensors padded (Z.of_nat k, length src)
  = Ok (<[k := src ++ drop (length src) row]> padded).
Proof.
  intros Hsrc Hrow Hlen. unfold fill_row.
  rewrite (py_getitem_of_nat _ _ _ Hsrc). simpl.
  rewrite (py_getitem_of_nat _ _ _ Hrow). simpl.
  unfold assign_prefix. rewrite bool_decide_eq_true_2 by done. simpl.
  apply py_setitem_of_nat. by eapply lookup_lt_Some.
Qed.

(** The inner loop fills the rows one after the other. *)
Lemma fill_loop pad (maxl : nat) (ts_todo ts_done : list tensor) :
  Forall (λ t, length t ≤ maxl)%nat ts_todo →
  foldM (fill_row (ts_done ++ ts_todo))
    ((pad_to pad maxl <$> ts_done)
       ++ replicate (length ts_todo) (replicate maxl pad))
    (imap (λ i n, (Z.of_nat (length ts_done + i), n)) (length <$> ts_todo))
  = Ok (pad_to pad maxl <$> (ts_done ++ ts_todo)).
Proof.
  intros Hlen. revert ts_done.
  induction Hlen as [|t ts Ht _ IH]; intros ts_done.
  - simpl. by rewrite !app_nil_r.
  - rewrite fmap_cons, imap_cons, foldM_cons, Nat.add_0_r.
    rewrite (fill_row_Ok _ _ _ t (replicate maxl pad)).
    2:{ by apply list_lookup_middle. }
    2:{ simpl. apply list_lookup_middle. by rewrite length_fmap. }
    2:{ by rewrite length_replicate. }
    rewrite drop_replicate.
    rewrite insert_app_r_alt by (by rewrite length_fmap).
    rewrite length_fmap, Nat.sub_diag.
    specialize (IH (ts_done ++ [t])).
    rewrite <- !app_assoc, fmap_app, <- app_assoc in IH.
    simpl. simpl in IH. rewrite <- IH. f_equal.
    apply imap_ext. intros i n _. simpl. rewrite length_app. simpl.
    do 2 f_equal. lia.
Qed.

Lemma column_lengths (g : nat) (batch : list example) :
  Forall (λ ex : example, (g < length ex)%nat) batch →
  column ((λ tensors : example, length <$> tensors) <$> batch) g
  = group_len g <$> batch.
Proof.
  intros H. unfold column. rewrite <- list_fmap_compose.
  apply Forall_fmap_ext_1. eapply Forall_impl; [exact H|].
  intros ex Hex. simpl. unfold group_len. by apply list_lookup_total_fmap.
Qed.

(** One group: every row is the sequence followed by padding. *)
Lemma pad_group_Ok pad (batch : list example) (g maxl : nat) :
  Forall (λ ex : example, (g < length ex)%nat) batch →
  Forall (λ ex, group_len g ex ≤ maxl)%nat batch →
  pad_group pad batch ((λ tensors : example, length <$> tensors) <$> batch)
    (length batch) (Z.of_nat g, maxl)
  = Ok ((λ ex, pad_to pad maxl (ex !!! g)) <$> batch, group_len g <$> batch).
Proof.
  intros Hg Hmax. unfold pad_group.
  rewrite (mapM'_Ok_total _ (λ ex : example, ex !!! g)).
  2:{ eapply Forall_impl; [exact Hg|]. intros ex Hex. simpl.
      by apply py_getitem_of_nat, list_lookup_lookup_total_lt. }
  simpl. rewrite Nat2Z.id, column_lengths by done.
  pose proof (fill_loop pad maxl ((λ ex : example, ex !!! g) <$> batch) []) as Hfill.
  simpl in Hfill. rewrite length_fmap, <- list_fmap_compose in Hfill.
  change (length ∘ (λ ex : example, ex !!! g)) with (group_len g) in Hfill.
  unfold enumerate. rewrite Hfill.
  - simpl. by rewrite <- list_fmap_compose.
  - apply Forall_fmap. eapply Forall_impl; [exact Hmax|]. by intros ex Hex.
Qed.

Lemma enumerate_fmap_seq {B : Type} (f : nat → B) (n : nat) :
  enumerate (f <$> seq 0 n) = (λ g, (Z.of_nat g, f g)) <$> seq 0 n.
Proof.
  apply list_eq. intros i. unfold enumerate.
  rewrite list_lookup_imap, !list_lookup_fmap.
  destruct (seq 0 n !! i) as [j|] eqn:Hj; [|done].
  apply lookup_seq in Hj as [-> _]. done.
Qed.

Lemma Forall_group_lt (batch : list example) (G g : nat) :
  Forall (λ ex : example, length ex = G) batch → (g < G)%nat →
  Forall (λ ex : example, (g < length ex)%nat) batch.
Proof.
  intros H Hg. eapply Forall_impl; [exact H|]. intros ex Hex. simpl in *. lia.
Qed.

(** The result of the collator in closed form. *)
Lemma CollatePad_call_Ok self (batch : list example) (G : nat) :
  batch ≠ [] → (0 < G)%nat → Forall (λ ex : example, length ex = G) batch →
  CollatePad_call self batch
  = Ok ((λ g, (λ ex, pad_to (pad_value self) (max_len g batch) (ex !!! g))
                <$> sorted group0_len true batch) <$> seq 0 G,
        (λ g, group_len g <$> sorted group0_len true batch) <$> seq 0 G).
Proof.
  intros Hne HG Hlen. unfold CollatePad_call.
  rewrite bool_decide_eq_true_2.
  2:{ eapply Forall_impl; [exact Hlen|]. intros [|t ex]; simpl; [lia|done]. }
  pose proof (sorted_Permutation group0_len true batch) as Hperm.
  set (sb := sorted group0_len true batch) in *.
  assert (Forall (λ ex : example, length ex = G) sb) as Hlen'
    by (by rewrite Hperm).
  assert (shape2 ((λ tensors : example, length <$> tensors) <$> sb)
          = Ok (length sb, G)) as ->.
  { destruct sb as [|ex sb'] eqn:Hsb.
    - apply Permutation_nil_l in Hperm. by subst.
    - apply Forall_cons in Hlen' as [Hex Hrest].
      simpl. rewrite bool_decide_eq_true_2.
      + by rewrite !length_fmap, Hex.
      + apply Forall_fmap. eapply Forall_impl; [exact Hrest|].
        intros ex' Hex'. simpl. rewrite !length_fmap. congruence. }
  simpl. rewrite enumerate_fmap_seq.
  rewrite (mapM'_Ok_total _
    (λ item : Z * nat, ((λ ex : example, pad_to (pad_value self) item.2
                           (ex !!! Z.to_nat item.1)) <$> sb,
                        group_len (Z.to_nat item.1) <$> sb))).
  - simpl. f_equal. rewrite <- !list_fmap_compose. f_equal.
    + apply list_fmap_ext. intros i g Hg. simpl. rewrite Nat2Z.id.
      apply lookup_seq in Hg as [Hgi Hi]. simpl in Hgi. subst g.
      rewrite column_lengths
        by (by eapply Forall_group_lt).
      unfold max_len. by rewrite (max_list_Permutation _ _ (fmap_Permutation _ _ _ Hperm)).
    + apply list_fmap_ext. intros _ g _. simpl. by rewrite Nat2Z.id.
  - apply Forall_fmap, Forall_seq. intros g Hg.
    unfold compose. cbn [fst snd]. rewrite Nat2Z.id.
    assert (g < G)%nat as HgG by lia.
    apply pad_group_Ok.
    + by eapply Forall_group_lt.
    + rewrite column_lengths by (by eapply Forall_group_lt).
      apply Forall_forall. intros ex Hex.
      apply max_list_elem_of_le, list_elem_of_fmap. by exists ex.
Qed.

Lemma group0_len_eq (ex : example) : group0_len ex = Z.of_nat (group_len 0 ex).
Proof. by destruct ex. Qed.

Lemma StronglySorted_weaken {A : Type} (R1 R2 : A → A → Prop) (l : list A) :
  (∀ x y, R1 x y → R2 x y) → StronglySorted R1 l → StronglySorted R2 l.
Proof.
  intros HR. induction 1 as [|x l _ IH Hx]; constructor; [done|].
  eapply Forall_impl; [exact Hx|]. auto.
Qed.

(** C4. For a non-empty batch whose examples all have the same [G >= 1]
    groups, [collate] returns, for each group [g], an array with one row
    for each example and [max_len_g] entries in each row, and a length
    vector.  The rows follow the examples reordered by descending group-0
    length, examples of equal length keeping their relative order; the row
    of an example holds its group-[g] sequence in the positions below the
    sequence's length and [pad_value] in every position from there on; the
    length vector lists the group-[g] lengths in the order of the rows. *)
Theorem collate_sorts_and_pads (self : CollatePad) (batch : list example) (G : nat) :
  batch ≠ [] → (0 < G)%nat → Forall (λ ex : example, length ex = G) batch →
  ∃ (sb : list example) (padded : list (list tensor)) (lengths : list (list nat)),
    CollatePad_call self batch = Ok (padded, lengths)
    ∧ sb ≡ₚ batch
    ∧ StronglySorted (λ a b, group_len 0 b ≤ group_len 0 a)%nat sb
    ∧ (∀ n, filter (λ ex, group_len 0 ex = n) sb
            = filter (λ ex, group_len 0 ex = n) batch)
    ∧ length padded = G ∧ length lengths = G
    ∧ ∀ g, (g < G)%nat →
        ∃ (arr : list tensor) (lens : list nat),
          padded !! g = Some arr ∧ lengths !! g = Some lens
          ∧ length arr = length batch
          ∧ Forall (λ row, length row = max_len g batch) arr
          ∧ lens = group_len g <$> sb
          ∧ ∀ (i : nat) (ex : example), sb !! i = Some ex →
              ∃ row, arr !! i = Some row
                ∧ (∀ j, (j < group_len g ex)%nat → row !! j = (ex !!! g) !! j)
                ∧ (∀ j, (group_len g ex ≤ j < max_len g batch)%nat →
                        row !! j = Some (pad_value self)).
Proof.
  intros Hne HG Hlen.
  pose proof (sorted_Permutation group0_len true batch) as Hperm.
  exists (sorted group0_len true batch). eexists _, _.
  split; [by apply (CollatePad_call_Ok self batch G)|].
  set (sb := sorted group0_len true batch) in *.
  assert (∀ g ex, ex ∈ sb → group_len g ex ≤ max_len g batch)%nat as Hmax.
  { intros g ex Hex. apply max_list_elem_of_le, list_elem_of_fmap.
    exists ex. split; [done|]. by rewrite <- Hperm. }
  split_and!.
  - done.
  - eapply StronglySorted_weaken; [|apply sorted_StronglySorted].
    intros a b. unfold in_order. rewrite !group0_len_eq. lia.
  - intros n.
    rewrite !(list_filter_iff (λ ex, group_len 0 ex = n)
                (λ ex, group0_len ex = Z.of_nat n))
      by (intros ex; rewrite group0_len_eq; lia).
    apply sorted_stable.
  - by rewrite length_fmap, length_seq.
  - by rewrite length_fmap, length_seq.
  - intros g Hg. eexists _, _.
    rewrite !list_lookup_fmap, lookup_seq_lt by done. simpl.
    split_and!; [done|done| | |done|].
    + by rewrite length_fmap, Hperm.
    + apply Forall_fmap, Forall_forall. intros ex Hex. simpl.
      apply pad_to_length. by apply Hmax.
    + intros i ex Hi. eexists. rewrite list_lookup_fmap, Hi. simpl.
      split_and!; [done| |].
      * intros j Hj. by apply pad_to_lookup_lt.
      * intros j Hj. by apply pad_to_lookup_ge.
Qed.

Lemma collate_sorts_and_pads_witness :
  ∃ (sb : list example) (padded : list (list tensor)) (lengths : list (list nat)),
    CollatePad_call {| pad_value := 0 |}
      [[[1; 1; 1; 1; 1]; [0]]; [[2; 2]; [1]]; [[3; 3; 3; 3; 3; 3; 3; 3]; [0]]]
    = Ok (padded, lengths)
    ∧ lengths !! 0%nat = Some [8; 5; 2]%nat
    ∧ sb = [[[3; 3; 3; 3; 3; 3; 3; 3]; [0]]; [[1; 1; 1; 1; 1]; [0]]; [[2; 2]; [1]]].
Proof.
  destruct (collate_sorts_and_pads {| pad_value := 0 |}
    [[[1; 1; 1; 1; 1]; [0]]; [[2; 2]; [1]]; [[3; 3; 3; 3; 3; 3; 3; 3]; [0]]] 2)
    as (sb & padded & lengths & Hcall & _).
  - done.
  - lia.
  - repeat constructor.
  - exists (sorted group0_len true
      [[[1; 1; 1; 1; 1]; [0]]; [[2; 2]; [1]]; [[3; 3; 3; 3; 3; 3; 3; 3]; [0]]]).
    exists padded, lengths. split; [done|].
    vm_compute in Hcall. injection Hcall as <- <-. by vm_compute.
Defined.

(** The batch of the specification: group-0 lengths [5, 2, 8]. *)
Example collate_5_2_8 :
  CollatePad_call {| pad_value := 0 |}
    [[[1; 1; 1; 1; 1]]; [[2; 2]]; [[3; 3; 3; 3; 3; 3; 3; 3]]]
  = Ok ([[[3; 3; 3; 3; 3; 3; 3; 3];
          [1; 1; 1; 1; 1; 0; 0; 0];
          [2; 2; 0; 0; 0; 0; 0; 0]]],
        [[8; 5; 2]%nat]).
Proof. reflexivity. Qed.

(** Examples of equal length keep their order. *)
Example collate_ties :
  CollatePad_call {| pad_value := 9 |} [[[1]]; [[2; 2]]; [[3]]; [[4; 4]]]
  = Ok ([[[2; 2]; [4; 4]; [1; 9]; [3; 9]]], [[2; 2; 1; 1]%nat]).
Proof. reflexivity. Qed.

(** ** The bijection between labels and indices *)

(** The index maps of pairwise distinct labels are inverse bijections
    between the labels and [0, ..., N-1]. *)
Lemma index_maps_bijection labels :
  NoDup labels →
  let m := index_maps labels in
  (label_to_index m).*2 = Z.of_nat <$> seq 0 (length labels)
  ∧ (∀ label, label ∈ labels →
       ∃ i, LabelIndexMap_getitem m label = Ok i ∧ label_of m i = Ok label)
  ∧ (∀ i, 0 ≤ i < Z.of_nat (length labels) →
       ∃ label, label_of m i = Ok label ∧ LabelIndexMap_getitem m label = Ok i).
Proof.
  intros Hnd m. split_and!.
  - unfold m. by rewrite label_to_index_NoDup, label_items_values.
  - intros label [k Hk]%list_elem_of_lookup. exists (Z.of_nat k). split.
    + apply getitem_lookup; [done|]. rewrite Nat2Z.id. split; [lia|done].
    + apply label_of_lookup. rewrite Nat2Z.id. split; [lia|done].
  - intros i Hi.
    destruct (lookup_lt_is_Some_2 labels (Z.to_nat i)) as [label Hl]; [lia|].
    exists label. split.
    + apply label_of_lookup. split; [lia|done].
    + apply getitem_lookup; [done|]. split; [lia|done].
Qed.

(** Every map constructed without [sort_key] satisfies the invariant, with
    [N] the number of distinct labels of [all_labels]. *)
Lemma LabelIndexMap_init_bijection so all_labels required_mappings m :
  LabelIndexMap_init so all_labels None required_mappings = Ok m →
  let N := length (set_order so all_labels) in
  (label_to_index m).*2 = Z.of_nat <$> seq 0 N
  ∧ (∀ label, label ∈ all_labels →
       ∃ i, LabelIndexMap_getitem m label = Ok i ∧ label_of m i = Ok label)
  ∧ (∀ i, 0 ≤ i < Z.of_nat N →
       ∃ label, label_of m i = Ok label ∧ LabelIndexMap_getitem m label = Ok i).
Proof.
  intros (Hm & Hperm & Hnd)%LabelIndexMap_init_labels N.
  destruct (index_maps_bijection _ Hnd) as (Hvalues & Hlabels & Hindices).
  rewrite <- Hm in Hvalues, Hlabels, Hindices.
  assert (length (individual_labels m) = N) as Hlen by (by rewrite Hperm).
  rewrite Hlen in Hvalues, Hindices. split_and!; [done| |done].
  intros label Hl. apply Hlabels. rewrite Hperm. by apply set_order_elem_of.
Qed.

(** C3, at a failing input.  [LabelIndexMap(['a', 'a', 'b'], sort_key=len)]
    is constructed over the two distinct labels [a] and [b], but the sorted
    labels keep the repetition: the values of [label_to_index] are 1 and 2
    instead of 0 and 1, and index 0 is mapped to [a], whose index is 1. *)
Theorem sort_key_keeps_repeated_labels (so : SetOrder) :
  ∃ m, LabelIndexMap_init so ["a"; "a"; "b"] (Some key_len) None = Ok m
       ∧ length (set_order so ["a"; "a"; "b"]) = 2%nat
       ∧ label_to_index m = [("a", 1); ("b", 2)]
       ∧ index_to_label m = [(0, "a"); (1, "a"); (2, "b")]
       ∧ label_of m 0 = Ok "a"
       ∧ LabelIndexMap_getitem m "a" = Ok 1.
Proof.
  eexists. split; [reflexivity|]. split_and!; try reflexivity.
  apply (Permutation_length (l' := ["a"; "b"])).
  apply NoDup_Permutation; [apply set_order_NoDup|compute_done|].
  intros x. rewrite set_order_elem_of, !elem_of_cons. tauto.
Qed.

Lemma set_order_two so (x y : string) :
  x ≠ y → set_order so [x; y] = [x; y] ∨ set_order so [x; y] = [y; x].
Proof.
  intros Hxy. apply Permutation_length_2_inv. symmetry.
  apply NoDup_Permutation; [apply set_order_NoDup| |apply set_order_elem_of].
  apply NoDup_cons. split; [by intros ?%list_elem_of_singleton|].
  apply NoDup_singleton.
Qed.

(** C2, at a failing input.  The map of
    [LabelIndexMap(['a', 'a', 'b'], sort_key=len)] is saved as the two
    lines ["a\t1"] and ["b\t2"], and [load] of that file raises
    [ValueError]: position 2 is out of range for two labels. *)
Theorem repeated_labels_map_fails_to_load (so : SetOrder)
    (fs : gmap string string) (filename : string) :
  ∃ m, LabelIndexMap_init so ["a"; "a"; "b"] (Some key_len) None = Ok m
       ∧ label_to_index m = [("a", 1); ("b", 2)]
       ∧ save_text m
         = "a" +:+ String tab ("1" +:+ String newline
             ("b" +:+ String tab ("2" +:+ String newline EmptyString)))
       ∧ LabelIndexMap_load so (LabelIndexMap_save m fs filename) filename
         = Raise ValueError.
Proof.
  eexists. split; [reflexivity|]. split; [reflexivity|]. split; [reflexivity|].
  rewrite load_saved_file. unfold load_text.
  assert (foldM load_row [] (file_rows (save_text (index_maps ["a"; "a"; "b"])))
          = Ok [("a", 1); ("b", 2)]) as Hrows by (by vm_compute).
  etrans; [apply (f_equal (λ r, r ≫= _)), Hrows|].
  simpl. rewrite LabelIndexMap_init_required.
  destruct (set_order_two so "a" "b") as [-> | ->]; done.
Qed.

(** ** The vocabulary builder *)

Section dict_update_facts.
Context {K V : Type} `{EqDecision K}.

Lemma dict_get_set (d : list (K * V)) k v k' :
  dict_get (dict_set d k v) k' = if decide (k = k') then Some v else dict_get d k'.
Proof.
  induction d as [|[k0 v0] d IH]; simpl.
  - done.
  - destruct (decide (k0 = k)) as [->|Hne]; simpl.
    + by destruct (decide (k = k')).
    + rewrite IH. destruct (decide (k0 = k')) as [->|]; [|done].
      by rewrite decide_False.
Qed.
End dict_update_facts.

Lemma count_occurrences_go ws (d : list (string * Z)) w :
  dict_get
    (foldl (λ occurrences word,
              dict_set occurrences word (default 0 (dict_get occurrences word) + 1))
           d ws) w
  = match occurrences_of w ws with
    | O => dict_get d w
    | c => Some (default 0 (dict_get d w) + Z.of_nat c)
    end.
Proof.
  revert d. induction ws as [|x ws IH]; intros d; [done|].
  simpl. rewrite IH, dict_get_set. unfold occurrences_of.
  rewrite filter_cons. destruct (decide (x = w)) as [->|Hne]; simpl.
  - destruct (length _); f_equal; lia.
  - done.
Qed.

(** The dict of line 18 holds the number of occurrences of each word. *)
Lemma count_occurrences_get ws w :
  dict_get (count_occurrences ws) w
  = match occurrences_of w ws with
    | O => None
    | c => Some (Z.of_nat c)
    end.
Proof.
  unfold count_occurrences. rewrite count_occurrences_go. simpl.
  by destruct (occurrences_of w ws).
Qed.

Lemma occurrences_of_elem_of w ws : w ∈ ws → (0 < occurrences_of w ws)%nat.
Proof.
  intros Hw. unfold occurrences_of.
  assert (w ∈ filter (λ x, x = w) ws) as Hin by (by apply list_elem_of_filter).
  destruct (filter _ ws); [by apply elem_of_nil in Hin|simpl; lia].
Qed.

Lemma all_words_of_cons tokenizer (row : list string) rows text ws :
  row !! 1%nat = Some text →
  all_words_of tokenizer rows = Ok ws →
  all_words_of tokenizer (row :: rows) = Ok ((lower <$> tokenizer text) ++ ws).
Proof.
  unfold all_words_of. intros Hrow H.
  apply bind_Ok in H as (words & Hwords & [= <-]).
  simpl. pose proof (py_getitem_of_nat row 1 text Hrow) as Htext.
  change (Z.of_nat 1) with 1 in Htext. rewrite Htext. simpl.
  by rewrite Hwords.
Qed.

Lemma all_words_of_cons_inv tokenizer (row : list string) rows all_words :
  all_words_of tokenizer (row :: rows) = Ok all_words →
  ∃ text ws, py_getitem row 1 = Ok text
    ∧ all_words_of tokenizer rows = Ok ws
    ∧ all_words = (lower <$> tokenizer text) ++ ws.
Proof.
  unfold all_words_of. intros H.
  apply bind_Ok in H as (words & Hwords & [= <-]). simpl in Hwords.
  apply bind_Ok in Hwords as (ws0 & Hrow & Hwords).
  apply bind_Ok in Hrow as (text & Htext & [= <-]).
  apply bind_Ok in Hwords as (wss & Hrest & [= <-]).
  exists text, (concat wss). by rewrite Hrest.
Qed.

(** Every row with a text column can be tokenized. *)
Lemma all_words_of_Ok tokenizer (rows : list (list string)) :
  Forall (λ row, 2 ≤ length row)%nat rows →
  ∃ ws, all_words_of tokenizer rows = Ok ws.
Proof.
  induction 1 as [|row rows Hrow _ [ws IH]].
  - by exists [].
  - destruct (lookup_lt_is_Some_2 row 1) as [text Htext]; [lia|].
    eexists. by apply all_words_of_cons.
Qed.

Lemma NoDup_two_le (l : list string) x y :
  NoDup l → x ∈ l → y ∈ l → x ≠ y → (2 ≤ length l)%nat.
Proof.
  intros Hnd Hx Hy Hxy. destruct l as [|a [|b l]]; simpl; [| |lia].
  - by apply elem_of_nil in Hx.
  - apply list_elem_of_singleton in Hx, Hy. congruence.
Qed.

(** For every row list that can be tokenized and every [max_size], given
    or not, the builder produces a map with [<PAD>] first and [<UNK>]
    second. *)
Lemma compute_vocab_map_Ok so rows tokenizer max_size all_words :
  all_words_of tokenizer rows = Ok all_words →
  ∃ labels,
    compute_vocab_map so rows tokenizer max_size = Ok (index_maps labels)
    ∧ labels ≡ₚ set_order so (select_vocab (count_occurrences all_words) max_size)
    ∧ NoDup labels
    ∧ labels !! 0%nat = Some PAD ∧ labels !! 1%nat = Some UNK.
Proof.
  intros Hwords. unfold compute_vocab_map. rewrite Hwords. simpl.
  set (all_labels := select_vocab _ _).
  assert (PAD ∈ all_labels ∧ UNK ∈ all_labels) as [HPAD HUNK].
  { unfold all_labels, select_vocab. rewrite !elem_of_app, !elem_of_cons. tauto. }
  destruct (LabelIndexMap_init_required_Ok so all_labels [(PAD, 0); (UNK, 1)])
    as (labels & Hinit & Hperm & Hall).
  - compute_done.
  - assert (2 ≤ length (set_order so all_labels))%nat as Hlen.
    { apply (NoDup_two_le _ PAD UNK); [apply set_order_NoDup| | |done];
        by apply set_order_elem_of. }
    intros label p Hin.
    repeat (apply elem_of_cons in Hin as [[= -> ->]|Hin]);
      [split; [done|lia].. | by apply elem_of_nil in Hin].
  - intros l1 l2 p H1 H2.
    repeat (apply elem_of_cons in H1 as [[= -> ->]|H1]);
    repeat (apply elem_of_cons in H2 as [[= ->]|H2]);
    try done; by apply elem_of_nil in H1 || by apply elem_of_nil in H2.
  - exists labels. split_and!; [done|done| | |].
    + rewrite Hperm. apply set_order_NoDup.
    + apply (Hall PAD 0). left.
    + apply (Hall UNK 1). right. left.
Qed.

Lemma index_maps_len labels :
  NoDup labels → LabelIndexMap_len (index_maps labels) = Z.of_nat (length labels).
Proof.
  intros Hnd. unfold LabelIndexMap_len. rewrite label_to_index_NoDup by done.
  unfold label_items. by rewrite length_imap.
Qed.

Lemma getitem_absent labels x :
  NoDup labels → x ∉ labels →
  LabelIndexMap_getitem (index_maps labels) x = Raise KeyError.
Proof.
  intros Hnd Hx. unfold LabelIndexMap_getitem, dict_getitem.
  rewrite label_to_index_NoDup by done.
  assert (dict_get (label_items labels) x = None) as ->; [|done].
  apply dict_get_None. by rewrite label_items_keys.
Qed.

Lemma set_order_length_NoDup so (l : list string) :
  NoDup l → length (set_order so l) = length l.
Proof.
  intros Hnd. apply Permutation_length, NoDup_Permutation;
    [apply set_order_NoDup|done|apply set_order_elem_of].
Qed.

(** The number of tokens selected for a given [max_size] that the corpus
    can fill: one more than leaves room for the two reserved tokens. *)
Lemma select_vocab_length (occurrences : list (string * Z)) (max_size : Z) :
  1 ≤ max_size ≤ Z.of_nat (length occurrences) + 1 →
  Z.of_nat (length (select_vocab occurrences (Some max_size))) = max_size + 1.
Proof.
  intros H. unfold select_vocab. simpl.
  rewrite length_app, length_fmap. simpl.
  assert (length (sorted snd true occurrences) = length occurrences) as Hlen
    by (by rewrite sorted_Permutation).
  rewrite Nat2Z.inj_add, py_slice_to_length; [lia|]. rewrite Hlen. lia.
Qed.

(** C5, at a failing input.  For the corpus with the single text
    ["a a a b b c"]: with [max_size] omitted the vocabulary has four
    entries and the corpus token [c] is not among them; with
    [max_size = 3] the vocabulary has four entries as well, one more than
    [max_size], and holds the two tokens [a] and [b] besides the reserved
    ones. *)
Theorem vocab_keeps_max_size_minus_one (so : SetOrder) :
  (∃ m, compute_vocab_map so [["0"; "a a a b b c"]] str_split None = Ok m
        ∧ LabelIndexMap_len m = 4
        ∧ LabelIndexMap_getitem m "c" = Raise KeyError)
  ∧ (∃ m i j, compute_vocab_map so [["0"; "a a a b b c"]] str_split (Some 3) = Ok m
        ∧ LabelIndexMap_len m = 4
        ∧ LabelIndexMap_getitem m "a" = Ok i
        ∧ LabelIndexMap_getitem m "b" = Ok j).
Proof.
  assert (all_words_of str_split [["0"; "a a a b b c"]]
          = Ok ["a"; "a"; "a"; "b"; "b"; "c"]) as Hwords by (by vm_compute).
  assert (∀ max_size, max_size = None ∨ max_size = Some 3 →
            select_vocab (count_occurrences ["a"; "a"; "a"; "b"; "b"; "c"]) max_size
            = ["a"; "b"; PAD; UNK]) as Hselect
    by (by intros ? [-> | ->]; vm_compute).
  assert (∀ max_size, max_size = None ∨ max_size = Some 3 →
    ∃ labels, compute_vocab_map so [["0"; "a a a b b c"]] str_split max_size
              = Ok (index_maps labels)
      ∧ NoDup labels ∧ length labels = 4%nat
      ∧ ∀ x, x ∈ labels ↔ x ∈ ["a"; "b"; PAD; UNK]) as Hvocab.
  { intros max_size Hmax.
    destruct (compute_vocab_map_Ok so _ _ max_size _ Hwords)
      as (labels & Hm & Hperm & Hnd & _).
    rewrite (Hselect _ Hmax) in Hperm. exists labels. split_and!; [done..| |].
    - rewrite Hperm. by rewrite set_order_length_NoDup by compute_done.
    - intros x. rewrite Hperm. apply set_order_elem_of. }
  split.
  - destruct (Hvocab None) as (labels & Hm & Hnd & Hlen & Hin); [by left|].
    exists (index_maps labels). split_and!; [done| |].
    + rewrite index_maps_len by done. by rewrite Hlen.
    + apply getitem_absent; [done|]. rewrite Hin. compute_done.
  - destruct (Hvocab (Some 3)) as (labels & Hm & Hnd & Hlen & Hin); [by right|].
    destruct (index_maps_bijection labels Hnd) as (_ & Hlabels & _).
    destruct (Hlabels "a") as (i & Hi & _); [apply Hin; compute_done|].
    destruct (Hlabels "b") as (j & Hj & _); [apply Hin; compute_done|].
    exists (index_maps labels), i, j. split_and!; [done| |done..].
    rewrite index_maps_len by done. by rewrite Hlen.
Qed.

(** C9, at a counterexample: [max_size = 1] is accepted, and the file
    written holds the two reserved tokens. *)
Lemma max_size_one_builds_vocab :
  ∃ fs', compute_vocab (library_of_rows [["0"; "a b"]]) dedup_order
           {["train.csv" := "0,a b"]} "train.csv" "vocab.txt" str_split (Some 1)
         = Ok fs'
       ∧ fs' !! "vocab.txt"
         = Some ("<PAD> 0" +:+ String newline ("<UNK> 1" +:+ String newline "")).
Proof. eexists. split; [by vm_compute|]. by vm_compute. Qed.

(** C9, as amended.  The builder does not look at the size of [max_size]:
    for every [max_size < 2] and every file whose rows have a text column
    it writes the vocabulary file, and the vocabulary maps [<PAD>] to 0
    and [<UNK>] to 1. *)
Theorem small_max_size_builds_vocab lib so (fs : gmap string string)
    csv_file dst_file tokenizer (max_size : Z) text :
  max_size < 2 →
  fs !! csv_file = Some text →
  Forall (λ row, 2 ≤ length row)%nat (csv_reader lib text) →
  ∃ m, compute_vocab_map so (csv_reader lib text) tokenizer (Some max_size) = Ok m
       ∧ LabelIndexMap_getitem m PAD = Ok 0
       ∧ LabelIndexMap_getitem m UNK = Ok 1
       ∧ compute_vocab lib so fs csv_file dst_file tokenizer (Some max_size)
         = Ok (write_file fs dst_file (str_concat (vocab_line <$> label_to_index m))).
Proof.
  intros _ Hfile Hrows.
  destruct (all_words_of_Ok tokenizer _ Hrows) as [ws Hws].
  destruct (compute_vocab_map_Ok so _ _ (Some max_size) _ Hws)
    as (labels & Hm & _ & Hnd & HPAD & HUNK).
  exists (index_maps labels). split_and!; [done| | |].
  - by apply getitem_lookup.
  - by apply getitem_lookup.
  - unfold compute_vocab, read_file. rewrite Hfile. simpl. by rewrite Hm.
Qed.

Lemma small_max_size_builds_vocab_witness :
  ∃ m, compute_vocab_map dedup_order [["0"; "a b"]] str_split (Some 0) = Ok m
       ∧ LabelIndexMap_getitem m PAD = Ok 0
       ∧ LabelIndexMap_getitem m UNK = Ok 1.
Proof.
  destruct (small_max_size_builds_vocab (library_of_rows [["0"; "a b"]])
              dedup_order {["train.csv" := "0,a b"]} "train.csv" "vocab.txt"
              str_split 0 "0,a b") as (m & Hm & HPAD & HUNK & _).
  - lia.
  - by vm_compute.
  - repeat constructor.
  - by exists m.
Defined.

(** ** Encoding of tokens *)

(** The builder's vocabulary maps [<UNK>] to 1. *)
Lemma compute_vocab_map_UNK so rows tokenizer max_size m :
  compute_vocab_map so rows tokenizer max_size = Ok m →
  dict_get (label_to_index m) UNK = Some 1.
Proof.
  intros Hm. unfold compute_vocab_map in Hm.
  destruct (all_words_of tokenizer rows) as [ws|] eqn:Hws; [|done].
  destruct (compute_vocab_map_Ok so _ _ max_size _ Hws)
    as (labels & Hm' & _ & Hnd & _ & HUNK).
  unfold compute_vocab_map in Hm'. rewrite Hws in Hm'. simpl in Hm, Hm'.
  rewrite Hm in Hm'. injection Hm' as ->.
  rewrite label_to_index_NoDup by done.
  apply dict_get_elem_of; [by rewrite label_items_keys|].
  by apply elem_of_label_items.
Qed.

(** C6. For a vocabulary that maps [<UNK>] to 1, such as every vocabulary
    of the builder, [get(i)] succeeds on every row that has a text column
    and parseable class fields; each token of the text, lower-cased, is
    encoded by its own index when the vocabulary has it and by 1 when it
    is absent. *)
Theorem unknown_token_maps_to_unk (lib : Library) (self : ToxicCommentDataset)
    (index : Z) (row : list string) (text : string) (classes : list (float_t lib)) :
  dict_get (label_to_index (vocab self)) UNK = Some 1 →
  py_getitem (rows self) index = Ok row →
  py_getitem row 1 = Ok text →
  mapM' (float lib) (py_slice row 2 8) = Ok classes →
  ∃ tokens,
    ToxicCommentDataset_getitem lib self index = Ok (tokens, classes)
    ∧ Forall2 (λ token id,
         match dict_get (label_to_index (vocab self)) (lower token) with
         | Some i => id = i
         | None => id = 1
         end) (word_tokenize lib text) tokens.
Proof.
  intros HUNK Hrow Htext Hclasses.
  exists ((λ token, default 1 (dict_get (label_to_index (vocab self)) (lower token)))
            <$> word_tokenize lib text).
  split.
  - unfold ToxicCommentDataset_getitem. rewrite Hrow. simpl.
    rewrite Htext. simpl. rewrite Hclasses. simpl.
    erewrite mapM'_Ok_total; [done|].
    apply Forall_forall. intros token _.
    unfold encode_token, dict_getitem. by rewrite HUNK.
  - apply Forall2_fmap_r, Forall_Forall2_diag, Forall_forall. intros token _.
    unfold compose. cbn beta.
    by destruct (dict_get (label_to_index (vocab self)) (lower token)).
Qed.

Lemma unknown_token_maps_to_unk_witness :
  ToxicCommentDataset_getitem (library_of_rows [])
    {| rows := [["7"; "Hello there WORLD"; "1"; "0"; "0"; "0"; "0"; "1"]];
       vocab := index_maps [PAD; UNK; "hello"; "world"] |} 0
  = Ok ([2; 1; 3], [1; 0; 0; 0; 0; 1]).
Proof.
  destruct (unknown_token_maps_to_unk (library_of_rows [])
    {| rows := [["7"; "Hello there WORLD"; "1"; "0"; "0"; "0"; "0"; "1"]];
       vocab := index_maps [PAD; UNK; "hello"; "world"] |} 0
    ["7"; "Hello there WORLD"; "1"; "0"; "0"; "0"; "0"; "1"]
    "Hello there WORLD" [1; 0; 0; 0; 0; 1]) as (tokens & Hget & Htokens).
  - by vm_compute.
  - by vm_compute.
  - by vm_compute.
  - by vm_compute.
  - by vm_compute.
Defined.

(** ** The split into training and validation rows *)

Lemma produce_datasets_Ok lib so (fs : gmap string string) csv_file
    (varg : vocab_arg) val_ratio text m :
  fs !! csv_file = Some text →
  resolve_vocab so fs varg = Ok m →
  produce_datasets lib so fs csv_file varg val_ratio
  = let rows0 := py_slice_from (csv_reader lib text) 1 in
    let train_size := train_size_of val_ratio (length rows0) in
    Ok ({| rows := py_slice_to rows0 train_size; vocab := m |},
        {| rows := py_slice_from rows0 train_size; vocab := m |}).
Proof.
  intros Hfile Hvocab. unfold produce_datasets, read_file.
  rewrite Hfile. simpl. by rewrite Hvocab.
Qed.








(** ** The header row *)



(** ** The vocabulary file of the builder, loaded again *)

Lemma isspace_lower_char c : isspace (lower_char c) = isspace c.
Proof. by destruct c as [[] [] [] [] [] [] [] []]. Qed.

Lemma lower_word w : is_word w → is_word (lower w).
Proof.
  intros [Hne Hw]. split; [by destruct w|].
  clear Hne. induction w as [|c w IH]; simpl in *; [done|].
  apply andb_true_iff in Hw as [Hc Hw].
  by rewrite isspace_lower_char, Hc, IH.
Qed.

Lemma split_aux_words s :
  string_forall (λ c, negb (isspace c)) (split_aux s).1 = true
  ∧ Forall is_word (split_aux s).2.
Proof.
  induction s as [|c s [IH1 IH2]]; simpl; [by split|].
  destruct (split_aux s) as [w ws]. simpl in *.
  destruct (isspace c) eqn:Hc; simpl.
  - split; [done|]. destruct w; [done|]. by constructor.
  - by rewrite Hc.
Qed.

(** The default tokenizer yields words. *)
Lemma str_split_words s : Forall is_word (str_split s).
Proof.
  unfold str_split. destruct (split_aux_words s) as [H1 H2].
  destruct (split_aux s) as [w ws]. simpl in *.
  destruct w; [done|]. by constructor.
Qed.

Lemma all_words_of_str_split rows ws :
  all_words_of str_split rows = Ok ws → Forall is_word ws.
Proof.
  revert ws. induction rows as [|row rows IH]; intros ws.
  - by intros [= <-].
  - intros (text & ws' & _ & Hws' & ->)%all_words_of_cons_inv.
    apply Forall_app. split; [|by apply IH].
    apply Forall_fmap. eapply Forall_impl; [apply str_split_words|].
    intros w. apply lower_word.
Qed.

Lemma occurrences_of_absent w ws : w ∉ ws → occurrences_of w ws = 0%nat.
Proof.
  unfold occurrences_of. induction ws as [|x ws IH]; [done|].
  intros [Hne Hw]%not_elem_of_cons. rewrite filter_cons.
  rewrite decide_False by done. auto.
Qed.

Lemma count_occurrences_keys ws w : w ∈ (count_occurrences ws).*1 → w ∈ ws.
Proof.
  intros Hw. destruct (decide (w ∈ ws)) as [|Hnot]; [done|].
  exfalso. revert Hw. apply dict_get_None. rewrite count_occurrences_get.
  by rewrite occurrences_of_absent.
Qed.

Lemma select_vocab_elem_of occurrences max_size x :
  x ∈ select_vocab occurrences max_size →
  x ∈ occurrences.*1 ∨ x = PAD ∨ x = UNK.
Proof.
  unfold select_vocab. rewrite elem_of_app, !elem_of_cons.
  intros [Hx|[Hx|[Hx|Hx]]]; [left|auto|auto|by apply elem_of_nil in Hx].
  apply list_elem_of_fmap in Hx as (kv & -> & Hkv).
  apply list_elem_of_fmap. exists kv. split; [done|].
  rewrite <- (sorted_Permutation snd true occurrences).
  unfold py_slice_to in Hkv. by apply subseteq_take in Hkv.
Qed.

(** The file written by [compute_vocab] with the default tokenizer loads
    to the vocabulary that was built. *)
Lemma vocab_file_roundtrip so rows max_size m :
  compute_vocab_map so rows str_split max_size = Ok m →
  load_text so (str_concat (vocab_line <$> label_to_index m)) = Ok m.
Proof.
  intros Hm. pose proof Hm as Hm0. unfold compute_vocab_map in Hm.
  destruct (all_words_of str_split rows) as [ws|] eqn:Hws; [|done].
  destruct (compute_vocab_map_Ok so _ _ max_size _ Hws)
    as (labels & Hm' & Hperm & Hnd & _).
  rewrite Hm0 in Hm'. injection Hm' as ->.
  rewrite label_to_index_NoDup by done.
  apply (load_text_lines so " "%char); [done|done|done|].
  apply Forall_forall. intros x Hx. rewrite Hperm in Hx.
  apply set_order_elem_of, select_vocab_elem_of in Hx as [Hx|[-> | ->]].
  - apply count_occurrences_keys in Hx.
    pose proof (all_words_of_str_split _ _ Hws) as Hwords.
    rewrite Forall_forall in Hwords. auto.
  - by split.
  - by split.
Qed.

(** [compute_vocab] followed by [produce_datasets] on its file, as train.py
    uses them: the datasets carry the vocabulary that was built. *)
Lemma produce_datasets_of_vocab_file lib so (fs fs' : gmap string string)
    csv_file dst_file max_size val_ratio text :
  compute_vocab lib so fs csv_file dst_file str_split max_size = Ok fs' →
  fs' !! csv_file = Some text →
  ∃ m train val,
    produce_datasets lib so fs' csv_file (VocabPath dst_file) val_ratio
    = Ok (train, val)
    ∧ vocab train = m ∧ vocab val = m
    ∧ dict_get (label_to_index m) PAD = Some 0
    ∧ dict_get (label_to_index m) UNK = Some 1.
Proof.
  intros Hcv Hfile. unfold compute_vocab in Hcv.
  apply bind_Ok in Hcv as (text0 & Htext0 & Hcv).
  apply bind_Ok in Hcv as (m & Hm & [= <-]).
  assert (resolve_vocab so (write_file fs dst_file
            (str_concat (vocab_line <$> label_to_index m))) (VocabPath dst_file)
          = Ok m) as Hvocab.
  { simpl. unfold LabelIndexMap_load, read_file, write_file.
    rewrite lookup_insert_eq. simpl. by eapply vocab_file_roundtrip. }
  exists m. eexists _, _.
  split; [by eapply produce_datasets_Ok|]. split_and!; [done|done| |].
  - pose proof Hm as Hm0. unfold compute_vocab_map in Hm.
    destruct (all_words_of str_split _) as [ws|] eqn:Hws; [|done].
    destruct (compute_vocab_map_Ok so _ _ max_size _ Hws)
      as (labels & Hm' & _ & Hnd & HPAD & _).
    rewrite Hm0 in Hm'. injection Hm' as ->.
    rewrite label_to_index_NoDup by done.
    apply dict_get_elem_of; [by rewrite label_items_keys|].
    by apply elem_of_label_items.
  - by eapply compute_vocab_map_UNK.
Qed.

(* ===================================================================== *)
(** * Further properties *)
(* ===================================================================== *)

(** ** Loops that raise *)

Lemma foldM_app {S X : Type} (f : S → X → result S) (s : S) (xs ys : list X) :
  foldM f s (xs ++ ys) = foldM f s xs ≫= λ s', foldM f s' ys.
Proof.
  revert s. induction xs as [|x xs IH]; intros s; simpl.
  - by destruct (foldM f s ys).
  - destruct (f s x) as [s1|e]; simpl; [apply IH|done].
Qed.


Lemma mapM'_raises {X Y : Type} (f : X → result Y) (err : exception)
    (xs : list X) (x : X) :
  (∀ y e, f y = Raise e → e = err) →
  x ∈ xs → f x = Raise err →
  mapM' f xs = Raise err.
Proof.
  intros Honly Hx Hbad.
  induction xs as [|y xs IH]; [by apply elem_of_nil in Hx|].
  simpl. destruct (f y) as [z|e] eqn:Hy; simpl.
  - apply elem_of_cons in Hx as [->|Hx]; [congruence|]. by rewrite IH.
  - by rewrite (Honly _ _ Hy).
Qed.

(** ** More on the constructor *)

(** What a successful placement step has checked. *)
Lemma place_required_checked R labels element required_position labels' :
  place_required R labels (element, required_position) = Ok labels' →
  required_position < Z.of_nat (length labels)
  ∧ ∃ (c k : nat) (o : string),
      labels !! c = Some element ∧ labels !! k = Some o
      ∧ norm_index (length labels) required_position = Some k
      ∧ ¬ (dict_get R o = Some required_position ∧ element ≠ o)
      ∧ labels' = <[k:=element]> (<[c:=o]> labels).
Proof.
  intros H. pose proof H as H0. unfold place_required in H.
  case_decide as Hrange; [done|]. split; [lia|].
  apply bind_Ok in H as (o & Ho & H).
  case_decide as Hconflict; [done|].
  apply place_required_inv in H0 as (c & k & o' & Hc & Hk & Hn & ->).
  apply py_getitem_Ok in Ho as (k' & Hk' & Hko).
  assert (k' = k) as -> by congruence.
  assert (o' = o) as -> by congruence.
  by exists c, k, o.
Qed.

Lemma place_loop_length R items labels labels' :
  foldM (place_required R) labels items = Ok labels' →
  length labels' = length labels.
Proof. intros H. by rewrite (place_loop_Permutation R _ _ _ H). Qed.

(** With non-negative positions, a loop that succeeds has put every
    required label at its position. *)
Lemma place_loop_sound (R : list (string * Z)) items done labels labels' :
  NoDup R.*1 →
  R = done ++ items →
  (∀ e p, (e, p) ∈ R → 0 ≤ p) →
  (∀ e p, (e, p) ∈ done → labels !! Z.to_nat p = Some e) →
  foldM (place_required R) labels items = Ok labels' →
  ∀ e p, (e, p) ∈ R → labels' !! Z.to_nat p = Some e.
Proof.
  intros Hkeys. revert done labels.
  induction items as [|[e p] items IH]; intros done labels HR Hpos Hdone Hloop.
  - injection Hloop as <-. intros e p He. apply Hdone.
    by rewrite HR, app_nil_r in He.
  - rewrite foldM_cons in Hloop. apply bind_Ok in Hloop as (labels1 & Hstep & Hloop).
    assert ((e, p) ∈ R) as HeR by (rewrite HR; apply elem_of_app; right; left).
    pose proof (Hpos e p HeR) as Hp.
    apply place_required_checked in Hstep
      as (Hrange & c & k & o & Hc & Hk & Hn & Hcheck & ->).
    rewrite norm_index_nonneg in Hn by lia. injection Hn as <-.
    eapply (IH (done ++ [(e, p)])); [by rewrite <- app_assoc|done| |exact Hloop].
    intros e' p' [He'|He']%elem_of_app.
    + assert ((e', p') ∈ R) as He'R by (rewrite HR; apply elem_of_app; by left).
      assert (e' ≠ e) as Hne.
      { intros ->. rewrite HR, fmap_app in Hkeys. simpl in Hkeys.
        apply NoDup_app in Hkeys as (_ & Hdisj & _). apply (Hdisj e).
        - apply list_elem_of_fmap. by exists (e, p').
        - left. }
      pose proof (Hpos e' p' He'R) as Hp'.
      assert (Z.to_nat p' ≠ Z.to_nat p) as Hpp.
      { intros Heq. assert (p' = p) as -> by lia.
        rewrite (Hdone e' p He') in Hk. injection Hk as <-.
        apply Hcheck. split; [by apply dict_get_elem_of|done]. }
      assert (Z.to_nat p' ≠ c) as Hpc.
      { intros <-. rewrite (Hdone e' p' He') in Hc. congruence. }
      rewrite !list_lookup_insert_ne by done. auto.
    + apply list_elem_of_singleton in He'. injection He' as -> ->.
      apply list_lookup_insert_eq. rewrite length_insert.
      by eapply lookup_lt_Some.
Qed.

(** X1. Every map constructed without [sort_key], with or without required
    mappings, is a bijection between the distinct labels of [all_labels]
    and [0, ..., N-1]: [len] is [N], the values of [label_to_index] are
    [0, ..., N-1] in order, and [label_of] and [index_of] are inverse to
    each other. *)
Theorem construction_without_sort_key_is_bijection
    so all_labels required_mappings m :
  LabelIndexMap_init so all_labels None required_mappings = Ok m →
  let N := length (set_order so all_labels) in
  LabelIndexMap_len m = Z.of_nat N
  ∧ (label_to_index m).*2 = Z.of_nat <$> seq 0 N
  ∧ (∀ label, label ∈ all_labels →
       ∃ i, LabelIndexMap_getitem m label = Ok i ∧ label_of m i = Ok label)
  ∧ (∀ i, 0 ≤ i < Z.of_nat N →
       ∃ label, label_of m i = Ok label ∧ LabelIndexMap_getitem m label = Ok i).
Proof.
  intros Hinit N.
  destruct (LabelIndexMap_init_bijection _ _ _ _ Hinit) as (Hv & Hl & Hi).
  apply LabelIndexMap_init_labels in Hinit as (Hm & Hperm & Hnd).
  split_and!; [|exact Hv|exact Hl|exact Hi].
  rewrite Hm, index_maps_len by done. unfold N. by rewrite Hperm.
Qed.

Lemma construction_without_sort_key_is_bijection_witness :
  ∃ m, LabelIndexMap_init dedup_order ["x"; "y"; "x"; "z"] None
         (Some [("z", 0)]) = Ok m
       ∧ LabelIndexMap_len m = 3.
Proof.
  exists (index_maps ["z"; "x"; "y"]).
  assert (LabelIndexMap_init dedup_order ["x"; "y"; "x"; "z"] None
            (Some [("z", 0)]) = Ok (index_maps ["z"; "x"; "y"])) as Hinit
    by (by vm_compute).
  split; [done|].
  by destruct (construction_without_sort_key_is_bijection _ _ _ _ Hinit)
    as (Hlen & _).
Defined.

(** X2. When all required positions are non-negative and the construction
    succeeds, every required label has its required index; so the
    constructor never returns a map that misses a requirement. *)
Theorem successful_construction_meets_requirements
    so all_labels (R : list (string * Z)) m :
  NoDup R.*1 →
  (∀ label p, (label, p) ∈ R → 0 ≤ p) →
  LabelIndexMap_init so all_labels None (Some R) = Ok m →
  ∀ label p, (label, p) ∈ R → LabelIndexMap_getitem m label = Ok p.
Proof.
  intros Hkeys Hpos Hinit label p Hlp.
  pose proof Hinit as (Hm & Hperm & Hnd)%LabelIndexMap_init_labels.
  rewrite LabelIndexMap_init_required in Hinit.
  apply bind_Ok in Hinit as (labels & Hloop & [= <-]). simpl in *.
  apply getitem_lookup; [done|]. split; [by eapply Hpos|].
  eapply (place_loop_sound R R []); try done.
  by intros e q ?%elem_of_nil.
Qed.

Lemma successful_construction_meets_requirements_witness :
  LabelIndexMap_getitem (index_maps ["z"; "x"; "y"]) "z" = Ok 0.
Proof.
  apply (successful_construction_meets_requirements dedup_order
           ["x"; "y"; "x"; "z"] [("z", 0)]).
  - compute_done.
  - intros label p Hin. apply list_elem_of_singleton in Hin.
    by injection Hin as _ ->.
  - by vm_compute.
  - left.
Defined.

Lemma foldM_only_raises {S X : Type} (f : S → X → result S) (P : exception → Prop)
    (s : S) (xs : list X) (e : exception) :
  (∀ s' y e', y ∈ xs → f s' y = Raise e' → P e') →
  foldM f s xs = Raise e → P e.
Proof.
  revert s. induction xs as [|y xs IH]; intros s Honly; [done|].
  simpl. destruct (f s y) as [s1|e'] eqn:Hstep; simpl.
  - apply IH. intros s' z e' Hz. apply Honly. by right.
  - intros [= <-]. eapply Honly; [left|done].
Qed.

Lemma py_getitem_raises {A : Type} (l : list A) (i : Z) e :
  py_getitem l i = Raise e →
  e = IndexError ∧ (i < - Z.of_nat (length l) ∨ Z.of_nat (length l) ≤ i).
Proof.
  unfold py_getitem, norm_index.
  destruct (decide (0 ≤ i < Z.of_nat (length l))) as [Hi|Hi]; simpl.
  - destruct (lookup_lt_is_Some_2 l (Z.to_nat i)) as [x ->]; [lia|done].
  - destruct (decide (- Z.of_nat (length l) ≤ i < 0)) as [Hi'|Hi']; simpl.
    + destruct (lookup_lt_is_Some_2 l (Z.to_nat (Z.of_nat (length l) + i)))
        as [x ->]; [lia|done].
    + intros [= <-]. split; [done|lia].
Qed.

(** A placement step raises [ValueError], or [IndexError] for a position
    below [-len]. *)
Lemma place_required_raises R labels element required_position e :
  place_required R labels (element, required_position) = Raise e →
  e = ValueError ∨ (e = IndexError ∧ required_position < 0).
Proof.
  unfold place_required. case_decide as Hrange; [intros [= <-]; by left|].
  destruct (py_getitem labels required_position) as [o|e0] eqn:Ho; simpl.
  2:{ intros [= <-]. apply py_getitem_raises in Ho as [-> Hi]. right.
      split; [done|lia]. }
  case_decide; [intros [= <-]; by left|].
  unfold py_index. destruct (list_find _ labels) as [[c y]|] eqn:Hf; simpl.
  2:{ intros [= <-]. by left. }
  apply list_find_Some in Hf as (Hc & _ & _).
  rewrite py_setitem_of_nat by (by eapply lookup_lt_Some). simpl.
  apply py_getitem_Ok in Ho as (k & Hn & _).
  unfold py_setitem. by rewrite length_insert, Hn.
Qed.

(** X3. When two different labels require the same non-negative position
    (all positions being non-negative), the construction raises
    [ValueError]. *)
Theorem conflicting_required_positions_raise
    so all_labels (R : list (string * Z)) (label1 label2 : string) (p : Z) :
  NoDup R.*1 →
  (∀ label q, (label, q) ∈ R → 0 ≤ q) →
  (label1, p) ∈ R → (label2, p) ∈ R → label1 ≠ label2 →
  LabelIndexMap_init so all_labels None (Some R) = Raise ValueError.
Proof.
  intros Hkeys Hpos H1 H2 Hne. rewrite LabelIndexMap_init_required.
  destruct (foldM (place_required R) (set_order so all_labels) R)
    as [labels|e] eqn:Hloop; simpl.
  - exfalso. apply Hne.
    assert (∀ e q, (e, q) ∈ R → labels !! Z.to_nat q = Some e) as Hall.
    { eapply (place_loop_sound R R []); try done.
      by intros e q ?%elem_of_nil. }
    pose proof (Hall _ _ H1). pose proof (Hall _ _ H2). congruence.
  - f_equal. revert Hloop.
    apply (foldM_only_raises _ (λ e, e = ValueError)).
    intros labels [e' q] e'' Hin Hstep.
    apply place_required_raises in Hstep as [->|[_ Hq]]; [done|].
    specialize (Hpos _ _ Hin). lia.
Qed.

Lemma conflicting_required_positions_raise_witness :
  LabelIndexMap_init dedup_order ["a"; "b"; "c"] None
    (Some [("a", 0); ("b", 0)]) = Raise ValueError.
Proof.
  apply (conflicting_required_positions_raise dedup_order ["a"; "b"; "c"]
           [("a", 0); ("b", 0)] "a" "b" 0).
  - compute_done.
  - intros label q Hin.
    repeat (apply elem_of_cons in Hin as [[= -> ->]|Hin]);
      [done..|by apply elem_of_nil in Hin].
  - left.
  - right. left.
  - done.
Defined.

(** X4. A required mapping whose position is not below the number [N] of
    distinct labels, or whose label is not among [all_labels], makes the
    construction fail: it raises [ValueError] or, when an earlier position
    lies below [-N], [IndexError]; no map is returned. *)
Theorem ill_formed_requirement_raises
    so all_labels (R : list (string * Z)) (label : string) (p : Z) :
  (label, p) ∈ R →
  Z.of_nat (length (set_order so all_labels)) ≤ p ∨ label ∉ all_labels →
  LabelIndexMap_init so all_labels None (Some R) = Raise ValueError
  ∨ LabelIndexMap_init so all_labels None (Some R) = Raise IndexError.
Proof.
  intros Hin Hbad. rewrite LabelIndexMap_init_required.
  destruct (foldM (place_required R) (set_order so all_labels) R)
    as [labels|e] eqn:Hloop; simpl.
  - exfalso. apply list_elem_of_split in Hin as (done & rest & HR).
    rewrite HR in Hloop at 2. rewrite foldM_app in Hloop.
    apply bind_Ok in Hloop as (labels1 & Hdone & Hloop).
    rewrite foldM_cons in Hloop.
    apply bind_Ok in Hloop as (labels2 & Hstep & _).
    pose proof (place_loop_Permutation _ _ _ _ Hdone) as Hperm.
    apply place_required_checked in Hstep as (Hrange & c & _ & _ & Hc & _).
    rewrite Hperm in Hrange. destruct Hbad as [Hp|Hl]; [lia|].
    apply Hl, (set_order_elem_of so). rewrite <- Hperm.
    by eapply list_elem_of_lookup_2.
  - assert (e = ValueError ∨ e = IndexError) as [-> | ->]; [|by left|by right].
    revert Hloop. apply (foldM_only_raises _ (λ e, e = ValueError ∨ e = IndexError)).
    intros labels [e' q] e'' _ Hstep.
    apply place_required_raises in Hstep as [->|[-> _]]; auto.
Qed.

Lemma ill_formed_requirement_raises_witness :
  LabelIndexMap_init dedup_order ["a"; "b"] None (Some [("a", 2)])
  = Raise ValueError.
Proof.
  destruct (ill_formed_requirement_raises dedup_order ["a"; "b"]
              [("a", 2)] "a" 2) as [H|H].
  - left.
  - left. by vm_compute.
  - exact H.
  - by vm_compute in H.
Defined.

(** X5. A single required mapping with a negative position [p], with
    [-N <= p < 0], is accepted: the label gets the index [N + p], counted
    from the end as Python list indexing does, and not [p]. *)
Theorem negative_required_position_counts_from_end
    so all_labels (label : string) (p : Z) :
  label ∈ all_labels →
  - Z.of_nat (length (set_order so all_labels)) ≤ p < 0 →
  ∃ m, LabelIndexMap_init so all_labels None (Some [(label, p)]) = Ok m
       ∧ LabelIndexMap_getitem m label
         = Ok (Z.of_nat (length (set_order so all_labels)) + p).
Proof.
  intros Hin Hp. rewrite LabelIndexMap_init_required.
  set (labels := set_order so all_labels) in *.
  set (k := Z.to_nat (Z.of_nat (length labels) + p)).
  assert (NoDup labels) as Hnd by apply set_order_NoDup.
  assert (norm_index (length labels) p = Some k) as Hn.
  { unfold norm_index. rewrite decide_False by lia. by rewrite decide_True by lia. }
  assert (k < length labels)%nat as Hk by lia.
  destruct (lookup_lt_is_Some_2 labels k Hk) as [o Ho].
  destruct (py_index_elem_of labels label) as (c & Hc & Hce);
    [by apply set_order_elem_of|].
  assert (place_required [(label, p)] labels (label, p)
          = Ok (<[k:=label]> (<[c:=o]> labels))) as Hstep.
  { unfold place_required. rewrite decide_False by lia.
    unfold py_getitem. rewrite Hn. simpl. rewrite Ho. simpl.
    rewrite decide_False.
    - rewrite Hc. simpl.
      rewrite py_setitem_of_nat by (by eapply lookup_lt_Some). simpl.
      unfold py_setitem. by rewrite length_insert, Hn.
    - intros [Hget Hne]. simpl in Hget. by case_decide. }
  exists (index_maps (<[k:=label]> (<[c:=o]> labels))).
  split; [by rewrite foldM_cons, Hstep|].
  apply getitem_lookup.
  - by rewrite (swap_Permutation labels c k label o).
  - split; [lia|]. fold k. apply list_lookup_insert_eq.
    by rewrite length_insert.
Qed.

Lemma negative_required_position_counts_from_end_witness :
  ∃ m, LabelIndexMap_init dedup_order ["a"; "b"; "c"] None (Some [("a", -1)]) = Ok m
       ∧ LabelIndexMap_getitem m "a" = Ok 2.
Proof.
  apply (negative_required_position_counts_from_end dedup_order
           ["a"; "b"; "c"] "a" (-1)).
  - compute_done.
  - by vm_compute.
Defined.

(** ** Lookups in the maps of any label list *)

Section dict_of_facts.
Context {K V : Type} `{EqDecision K}.

Lemma dict_of_go_get (kvs d : list (K * V)) k :
  dict_get (foldl (λ d kv, dict_set d kv.1 kv.2) d kvs) k
  = match dict_get (reverse kvs) k with
    | Some v => Some v
    | None => dict_get d k
    end.
Proof.
  revert d. induction kvs as [|[k0 v0] kvs IH]; intros d; simpl; [done|].
  rewrite IH, reverse_cons, dict_get_set.
  assert (∀ l : list (K * V), dict_get (l ++ [(k0, v0)]) k
            = match dict_get l k with
              | Some v => Some v
              | None => if decide (k0 = k) then Some v0 else None
              end) as ->.
  { intros l. induction l as [|[k1 v1] l IHl]; simpl; [done|].
    by destruct (decide (k1 = k)). }
  destruct (dict_get (reverse kvs) k); [done|].
  by destruct (decide (k0 = k)).
Qed.

(** A comprehension maps a key to the value of its last item. *)
Lemma dict_of_get (kvs : list (K * V)) k :
  dict_get (dict_of kvs) k = dict_get (reverse kvs) k.
Proof. unfold dict_of. rewrite dict_of_go_get. by destruct (dict_get _ k). Qed.
End dict_of_facts.

Lemma enumerate_values {A : Type} (l : list A) : (enumerate l).*2 = l.
Proof.
  apply list_eq. intros i. unfold enumerate.
  rewrite list_lookup_fmap, list_lookup_imap. by destruct (l !! i).
Qed.

(** [label_to_index] of any label list, repetitions included. *)
Lemma label_to_index_get labels (x : string) :
  match dict_get (label_to_index (index_maps labels)) x with
  | Some i => 0 ≤ i ∧ labels !! Z.to_nat i = Some x
  | None => x ∉ labels
  end.
Proof.
  simpl. rewrite dict_of_get.
  set (kvs := (λ il : Z * string, (il.2, il.1)) <$> enumerate labels).
  assert (kvs.*1 = labels) as Hkeys.
  { unfold kvs. rewrite <- list_fmap_compose.
    rewrite <- (enumerate_values labels) at 2. done. }
  destruct (dict_get (reverse kvs) x) as [i|] eqn:Hget.
  - apply dict_get_Some in Hget. rewrite elem_of_reverse in Hget.
    apply list_elem_of_fmap in Hget as ([j y] & [= -> ->] & Hin).
    by apply elem_of_enumerate in Hin.
  - apply dict_get_None in Hget.
    by rewrite fmap_reverse, elem_of_reverse, Hkeys in Hget.
Qed.

(** The labels of a constructed map, for every choice of arguments. *)
Lemma LabelIndexMap_init_elements so all_labels sort_key required_mappings m :
  LabelIndexMap_init so all_labels sort_key required_mappings = Ok m →
  m = index_maps (individual_labels m)
  ∧ (∀ x, x ∈ individual_labels m ↔ x ∈ all_labels)
  ∧ (sort_key = None ∨ NoDup all_labels → NoDup (individual_labels m)).
Proof.
  destruct sort_key as [key|].
  - destruct required_mappings as [R|]; [done|].
    intros [= <-]. simpl. split_and!; [done| |].
    + intros x. by rewrite sorted_Permutation.
    + intros [?|Hnd]; [done|]. by rewrite sorted_Permutation.
  - intros (Hm & Hperm & Hnd)%LabelIndexMap_init_labels.
    split_and!; [done| |done].
    intros x. rewrite Hperm. apply set_order_elem_of.
Qed.

(** X6. For every constructed map, whatever the arguments of the
    constructor: [index_of] raises [KeyError] exactly on the labels that
    are not in [all_labels], and for a label of [all_labels] the index it
    returns is mapped back to the label by [label_of]. *)
Theorem index_of_known_and_unknown_labels
    so all_labels sort_key required_mappings m (label : string) :
  LabelIndexMap_init so all_labels sort_key required_mappings = Ok m →
  (label ∉ all_labels → LabelIndexMap_getitem m label = Raise KeyError)
  ∧ (label ∈ all_labels →
       ∃ i, LabelIndexMap_getitem m label = Ok i ∧ label_of m i = Ok label).
Proof.
  intros (Hm & Hin & _)%LabelIndexMap_init_elements.
  pose proof (label_to_index_get (individual_labels m) label) as Hget.
  rewrite <- Hm in Hget. unfold LabelIndexMap_getitem, dict_getitem.
  destruct (dict_get (label_to_index m) label) as [i|].
  - destruct Hget as [Hi Hget]. split.
    + intros Hl. exfalso. apply Hl, Hin. by eapply list_elem_of_lookup_2.
    + intros _. exists i. split; [done|]. rewrite Hm. by apply label_of_lookup.
  - split; [done|]. intros Hl%Hin. done.
Qed.

Lemma index_of_known_and_unknown_labels_witness :
  LabelIndexMap_getitem (index_maps ["a"; "a"; "b"]) "c" = Raise KeyError.
Proof.
  destruct (index_of_known_and_unknown_labels dedup_order ["a"; "a"; "b"]
              (Some key_len) None (index_maps ["a"; "a"; "b"]) "c") as [H _].
  - by vm_compute.
  - apply H. compute_done.
Defined.

Lemma StronglySorted_lookup {A : Type} (R : A → A → Prop) (l : list A)
    (i j : nat) (x y : A) :
  StronglySorted R l → l !! i = Some x → l !! j = Some y → (i < j)%nat → R x y.
Proof.
  intros Hs Hi Hj Hij. rewrite <- (take_drop j l) in Hs.
  eapply StronglySorted_app_1_elem_of; [exact Hs| |].
  - apply elem_of_take. eauto.
  - apply list_elem_of_lookup. exists 0%nat. by rewrite lookup_drop, Nat.add_0_r.
Qed.

(** X7. With a [sort_key] and pairwise distinct labels the construction
    succeeds, the labels are indexed in the order of the stable sort by
    key, and a label with a smaller key has a smaller index. *)
Theorem sort_key_orders_indices so all_labels (key : string → Z) :
  NoDup all_labels →
  ∃ m, LabelIndexMap_init so all_labels (Some key) None = Ok m
       ∧ individual_labels m = sorted key false all_labels
       ∧ ∀ label1 label2 i j,
           LabelIndexMap_getitem m label1 = Ok i →
           LabelIndexMap_getitem m label2 = Ok j →
           key label1 < key label2 → i < j.
Proof.
  intros Hnd. exists (index_maps (sorted key false all_labels)).
  split; [done|]. split; [done|].
  assert (NoDup (sorted key false all_labels)) as Hnd'
    by (by rewrite sorted_Permutation).
  intros label1 label2 i j [Hi H1]%getitem_lookup [Hj H2]%getitem_lookup Hkey;
    [|done..].
  destruct (decide (i < j)) as [|Hji]; [done|]. exfalso.
  destruct (decide (i = j)) as [->|Hne]; [assert (label1 = label2) by congruence; subst; lia|].
  pose proof (StronglySorted_lookup _ _ (Z.to_nat j) (Z.to_nat i) _ _
                (sorted_StronglySorted key false all_labels) H2 H1) as Hord.
  unfold in_order in Hord. lia.
Qed.

Lemma sort_key_orders_indices_witness :
  ∃ m, LabelIndexMap_init dedup_order ["ccc"; "a"; "bb"] (Some key_len) None = Ok m
       ∧ individual_labels m = ["a"; "bb"; "ccc"].
Proof.
  destruct (sort_key_orders_indices dedup_order ["ccc"; "a"; "bb"] key_len)
    as (m & Hm & Hlabels & _).
  - compute_done.
  - exists m. split; [done|]. rewrite Hlabels. by vm_compute.
Defined.

(** X8. A map constructed from labels that are words (non-empty, without
    whitespace), without [sort_key] or with [sort_key] on pairwise distinct
    labels, is returned unchanged by [load] from the file that [save]
    wrote. *)
Theorem saved_map_loads_unchanged so all_labels sort_key required_mappings m
    (fs : gmap string string) filename :
  LabelIndexMap_init so all_labels sort_key required_mappings = Ok m →
  sort_key = None ∨ NoDup all_labels →
  Forall is_word all_labels →
  LabelIndexMap_load so (LabelIndexMap_save m fs filename) filename = Ok m.
Proof.
  intros (Hm & Hin & Hnd)%LabelIndexMap_init_elements Hpath Hwords.
  rewrite load_saved_file, Hm. apply load_save_roundtrip; [auto|].
  apply Forall_forall. intros x Hx%Hin.
  rewrite Forall_forall in Hwords. auto.
Qed.

Lemma saved_map_loads_unchanged_witness :
  LabelIndexMap_load dedup_order
    (LabelIndexMap_save (index_maps ["a"; "bb"; "ccc"]) ∅ "labels.txt") "labels.txt"
  = Ok (index_maps ["a"; "bb"; "ccc"]).
Proof.
  apply (saved_map_loads_unchanged dedup_order ["ccc"; "a"; "bb"]
           (Some key_len) None).
  - by vm_compute.
  - right. compute_done.
  - repeat constructor; done.
Defined.




(** ** More on the vocabulary builder *)

(** X10. For every file whose rows have a text column, every tokenizer and
    every [max_size], omitted or given, [compute_vocab] writes the
    vocabulary file, and in the vocabulary [<PAD>] has index 0 and [<UNK>]
    has index 1. *)
Theorem reserved_tokens_have_fixed_indices lib so (fs : gmap string string)
    csv_file dst_file tokenizer (max_size : option Z) text :
  fs !! csv_file = Some text →
  Forall (λ row, 2 ≤ length row)%nat (csv_reader lib text) →
  ∃ m, compute_vocab_map so (csv_reader lib text) tokenizer max_size = Ok m
       ∧ LabelIndexMap_getitem m PAD = Ok 0
       ∧ LabelIndexMap_getitem m UNK = Ok 1
       ∧ compute_vocab lib so fs csv_file dst_file tokenizer max_size
         = Ok (write_file fs dst_file (str_concat (vocab_line <$> label_to_index m))).
Proof.
  intros Hfile Hrows.
  destruct (all_words_of_Ok tokenizer _ Hrows) as [ws Hws].
  destruct (compute_vocab_map_Ok so _ _ max_size _ Hws)
    as (labels & Hm & _ & Hnd & HPAD & HUNK).
  exists (index_maps labels). split_and!; [done| | |].
  - by apply getitem_lookup.
  - by apply getitem_lookup.
  - unfold compute_vocab, read_file. rewrite Hfile. simpl. by rewrite Hm.
Qed.

Lemma reserved_tokens_have_fixed_indices_witness :
  ∃ m, compute_vocab_map dedup_order [["id"; "text"]; ["0"; "b a b"]] str_split None
       = Ok m
       ∧ LabelIndexMap_getitem m PAD = Ok 0
       ∧ LabelIndexMap_getitem m UNK = Ok 1.
Proof.
  destruct (reserved_tokens_have_fixed_indices
              (library_of_rows [["id"; "text"]; ["0"; "b a b"]])
              dedup_order {["train.csv" := ""]} "train.csv" "vocab.txt"
              str_split None "") as (m & Hm & HPAD & HUNK & _).
  - by vm_compute.
  - repeat constructor.
  - by exists m.
Defined.

(** X11. A row with fewer than two fields, such as the empty row that
    [csv.reader] yields for a blank line, makes [compute_vocab] raise
    [IndexError]; nothing is written. *)
Theorem row_without_text_column_raises lib so (fs : gmap string string)
    csv_file dst_file tokenizer max_size text (row : list string) :
  fs !! csv_file = Some text →
  row ∈ csv_reader lib text → (length row < 2)%nat →
  compute_vocab lib so fs csv_file dst_file tokenizer max_size = Raise IndexError.
Proof.
  intros Hfile Hrow Hlen. unfold compute_vocab, read_file. rewrite Hfile. simpl.
  unfold compute_vocab_map, all_words_of.
  rewrite (mapM'_raises _ IndexError (csv_reader lib text) row); [done| |done|].
  - intros y e Hy. destruct (py_getitem y 1) as [t|e0] eqn:Hget; [done|].
    injection Hy as <-. by apply py_getitem_raises in Hget as [-> _].
  - destruct (py_getitem row 1) as [t|e0] eqn:Hget; simpl.
    + apply py_getitem_Ok in Hget as (k & Hk & Ht).
      unfold norm_index in Hk. repeat case_decide; simplify_eq; lia.
    + by apply py_getitem_raises in Hget as [-> _].
Qed.

Lemma row_without_text_column_raises_witness :
  compute_vocab (library_of_rows [["0"; "a b"]; []]) dedup_order
    {["train.csv" := ""]} "train.csv" "vocab.txt" str_split None
  = Raise IndexError.
Proof.
  apply (row_without_text_column_raises _ _ _ _ _ _ _ "" []).
  - by vm_compute.
  - compute_done.
  - simpl. lia.
Defined.

(** X12. The frequency dict that lines 16 to 18 of [compute_vocab] build
    from the lower-cased tokens maps each of them to the number of its
    occurrences, and has no other key. *)
Theorem frequency_dict_counts_tokens (ws : list string) (w : string) :
  dict_get (count_occurrences ws) w
  = if decide (w ∈ ws) then Some (Z.of_nat (occurrences_of w ws)) else None.
Proof.
  rewrite count_occurrences_get. case_decide as Hw.
  - apply occurrences_of_elem_of in Hw.
    destruct (occurrences_of w ws); [lia|done].
  - by rewrite occurrences_of_absent.
Qed.

Section dict_keys_facts.
Context {K V : Type} `{EqDecision K}.

Lemma dict_set_keys (d : list (K * V)) k v :
  (dict_set d k v).*1 = if decide (k ∈ d.*1) then d.*1 else d.*1 ++ [k].
Proof.
  induction d as [|[k0 v0] d IH]; [done|].
  cbn [dict_set]. destruct (decide (k0 = k)) as [->|Hne].
  - rewrite !fmap_cons. cbn [fst]. rewrite decide_True by left. done.
  - rewrite !fmap_cons, IH. cbn [fst].
    destruct (decide (k ∈ d.*1)) as [Hin|Hnot].
    + rewrite decide_True by (by right). done.
    + rewrite decide_False; [done|]. by intros [?|?]%elem_of_cons.
Qed.

Lemma dict_set_keys_NoDup (d : list (K * V)) k v :
  NoDup d.*1 → NoDup (dict_set d k v).*1.
Proof.
  intros Hnd. rewrite dict_set_keys. case_decide as Hk; [done|].
  apply NoDup_app. split_and!; [done| |apply NoDup_singleton].
  by intros x Hx ->%list_elem_of_singleton.
Qed.
End dict_keys_facts.

Lemma count_occurrences_NoDup ws : NoDup (count_occurrences ws).*1.
Proof.
  unfold count_occurrences.
  assert (∀ d : list (string * Z), NoDup d.*1 →
    NoDup (foldl (λ occurrences word,
             dict_set occurrences word (default 0 (dict_get occurrences word) + 1))
           d ws).*1) as H; [|apply H; constructor].
  induction ws as [|w ws IH]; intros d Hd; [done|].
  simpl. apply IH. by apply dict_set_keys_NoDup.
Qed.

Lemma count_occurrences_elem_of ws w n :
  (w, n) ∈ count_occurrences ws ↔ w ∈ ws ∧ n = Z.of_nat (occurrences_of w ws).
Proof.
  split.
  - intros Hin. apply dict_get_elem_of in Hin; [|apply count_occurrences_NoDup].
    rewrite count_occurrences_get in Hin.
    destruct (occurrences_of w ws) as [|c] eqn:Hc; [done|].
    injection Hin as <-. split; [|done].
    destruct (decide (w ∈ ws)) as [|Hnot]; [done|].
    rewrite occurrences_of_absent in Hc by done. done.
  - intros [Hw ->]. apply dict_get_Some. rewrite count_occurrences_get.
    apply occurrences_of_elem_of in Hw. by destruct (occurrences_of w ws); [lia|].
Qed.

(** X13. The tokens kept are the most frequent ones: a token of the
    vocabulary other than the reserved ones occurs at least as often as
    every token of the corpus that was left out. *)
Theorem kept_tokens_are_most_frequent so rows tokenizer max_size m ws
    (w w' : string) (i : Z) :
  all_words_of tokenizer rows = Ok ws →
  compute_vocab_map so rows tokenizer max_size = Ok m →
  LabelIndexMap_getitem m w = Ok i → w ≠ PAD → w ≠ UNK →
  w' ∈ ws → LabelIndexMap_getitem m w' = Raise KeyError →
  (occurrences_of w' ws ≤ occurrences_of w ws)%nat.
Proof.
  intros Hws Hm Hw HPAD HUNK Hw' Hout.
  destruct (compute_vocab_map_Ok so _ _ max_size _ Hws)
    as (labels & Hm' & Hperm & Hnd & _).
  rewrite Hm in Hm'. injection Hm' as ->.
  set (occ := count_occurrences ws) in *.
  set (ranked := sorted snd true occ).
  set (k := slice_bound (length ranked)
              (default (Z.of_nat (length occ)) max_size - 1)).
  assert (∀ x, x ∈ labels ↔ x ∈ (take k ranked).*1 ∨ x = PAD ∨ x = UNK) as Hlabels.
  { intros x. rewrite Hperm, set_order_elem_of. unfold select_vocab, py_slice_to.
    fold occ ranked k. rewrite elem_of_app, !elem_of_cons, elem_of_nil. tauto. }
  apply getitem_lookup in Hw as [_ Hw]; [|done].
  apply list_elem_of_lookup_2, Hlabels in Hw as [Hw|[?|?]]; [|done..].
  apply list_elem_of_fmap in Hw as ([w0 n] & -> & Hin).
  assert (w' ∉ labels) as Hnot.
  { intros [j Hj]%list_elem_of_lookup.
    assert (LabelIndexMap_getitem (index_maps labels) w' = Ok (Z.of_nat j)) as Hok.
    { apply getitem_lookup; [done|]. rewrite Nat2Z.id. split; [lia|done]. }
    congruence. }
  assert ((w', Z.of_nat (occurrences_of w' ws)) ∈ drop k ranked) as Hin'.
  { assert ((w', Z.of_nat (occurrences_of w' ws)) ∈ ranked) as Hr.
    { unfold ranked. rewrite sorted_Permutation.
      by apply count_occurrences_elem_of. }
    rewrite <- (take_drop k ranked) in Hr.
    apply elem_of_app in Hr as [Hr|Hr]; [|done].
    exfalso. apply Hnot, Hlabels. left.
    apply list_elem_of_fmap. by eexists (_, _). }
  assert ((w0, n) ∈ occ) as Hocc.
  { apply subseteq_take in Hin. unfold ranked in Hin.
    by rewrite sorted_Permutation in Hin. }
  apply count_occurrences_elem_of in Hocc as [_ ->].
  pose proof (sorted_StronglySorted snd true occ) as Hsorted.
  fold ranked in Hsorted. rewrite <- (take_drop k ranked) in Hsorted.
  pose proof (StronglySorted_app_1_elem_of _ _ _ _ _ Hsorted Hin Hin') as Hord.
  unfold in_order in Hord. simpl in *. lia.
Qed.

Lemma kept_tokens_are_most_frequent_witness :
  (occurrences_of "c" ["a"; "a"; "a"; "b"; "b"; "c"]
   ≤ occurrences_of "b" ["a"; "a"; "a"; "b"; "b"; "c"])%nat.
Proof.
  apply (kept_tokens_are_most_frequent dedup_order [["0"; "a a a b b c"]]
           str_split None (index_maps [PAD; UNK; "a"; "b"])
           ["a"; "a"; "a"; "b"; "b"; "c"] "b" "c" 3).
  - by vm_compute.
  - by vm_compute.
  - by vm_compute.
  - done.
  - done.
  - compute_done.
  - by vm_compute.
Defined.

(** X14. The vocabulary has no entry that is not [<PAD>], [<UNK>] or a
    lower-cased token of the rows. *)
Theorem vocabulary_holds_only_corpus_tokens so rows tokenizer max_size m ws
    (x : string) (i : Z) :
  all_words_of tokenizer rows = Ok ws →
  compute_vocab_map so rows tokenizer max_size = Ok m →
  LabelIndexMap_getitem m x = Ok i →
  x = PAD ∨ x = UNK ∨ x ∈ ws.
Proof.
  intros Hws Hm Hx.
  destruct (compute_vocab_map_Ok so _ _ max_size _ Hws)
    as (labels & Hm' & Hperm & Hnd & _).
  rewrite Hm in Hm'. injection Hm' as ->.
  apply getitem_lookup in Hx as [_ Hx]; [|done].
  apply list_elem_of_lookup_2 in Hx. rewrite Hperm in Hx.
  apply set_order_elem_of, select_vocab_elem_of in Hx as [Hx|[?|?]]; auto.
  right. right. by apply count_occurrences_keys.
Qed.

Lemma vocabulary_holds_only_corpus_tokens_witness :
  "b" = PAD ∨ "b" = UNK ∨ "b" ∈ ["a"; "a"; "a"; "b"; "b"; "c"].
Proof.
  apply (vocabulary_holds_only_corpus_tokens dedup_order [["0"; "a a a b b c"]]
           str_split None (index_maps [PAD; UNK; "a"; "b"])
           ["a"; "a"; "a"; "b"; "b"; "c"] "b" 3); by vm_compute.
Defined.

Lemma lower_char_not_upper c :
  lower_char c ≠ "P"%char ∧ lower_char c ≠ "U"%char.
Proof. by destruct c as [[] [] [] [] [] [] [] []]. Qed.

(** A lower-cased string is neither of the reserved tokens. *)
Lemma lower_not_reserved s : lower s ≠ PAD ∧ lower s ≠ UNK.
Proof.
  destruct s as [|c0 [|c1 s]]; [done..|]. simpl.
  destruct (lower_char_not_upper c1) as [HP HU].
  split; intros [= _ H1 _]; done.
Qed.

Lemma all_words_of_lower tokenizer rows ws :
  all_words_of tokenizer rows = Ok ws → Forall (λ w, ∃ t, w = lower t) ws.
Proof.
  revert ws. induction rows as [|row rows IH]; intros ws.
  - by intros [= <-].
  - intros (text & ws' & _ & Hws' & ->)%all_words_of_cons_inv.
    apply Forall_app. split; [|by apply IH].
    apply Forall_fmap, Forall_forall. intros t _. by exists t.
Qed.

(** X15. The size of the vocabulary.  With [D] distinct lower-cased tokens
    in the rows and [k] the given [max_size], or [D] when [max_size] is
    omitted: whenever [1 <= k <= D + 1] the vocabulary has exactly [k + 1]
    entries, the [k - 1] tokens kept and the two reserved ones. *)
Theorem vocabulary_size so rows tokenizer (max_size : option Z) m ws :
  all_words_of tokenizer rows = Ok ws →
  compute_vocab_map so rows tokenizer max_size = Ok m →
  let D := Z.of_nat (length (count_occurrences ws)) in
  let k := default D max_size in
  1 ≤ k ≤ D + 1 →
  LabelIndexMap_len m = k + 1.
Proof.
  intros Hws Hm D k Hk.
  destruct (compute_vocab_map_Ok so _ _ max_size _ Hws)
    as (labels & Hm' & Hperm & Hnd & _).
  rewrite Hm in Hm'. injection Hm' as ->.
  rewrite index_maps_len, Hperm by done.
  set (occ := count_occurrences ws) in *.
  assert (length (sorted snd true occ) = length occ) as Hlen
    by (by rewrite sorted_Permutation).
  assert (NoDup (select_vocab occ max_size)) as Hsel.
  { unfold select_vocab, py_slice_to. apply NoDup_app. split_and!.
    - rewrite fmap_take. eapply sublist_NoDup; [|apply sublist_take].
      rewrite (fmap_Permutation fst _ _ (sorted_Permutation snd true occ)).
      apply count_occurrences_NoDup.
    - intros x Hx Hres.
      assert (x ∈ ws) as Hxws.
      { apply count_occurrences_keys. fold occ.
        rewrite <- (fmap_Permutation fst _ _ (sorted_Permutation snd true occ)).
        rewrite fmap_take in Hx. by apply subseteq_take in Hx. }
      pose proof (all_words_of_lower _ _ _ Hws) as Hlower.
      rewrite Forall_forall in Hlower. destruct (Hlower x Hxws) as [t ->].
      destruct (lower_not_reserved t) as [HP HU].
      apply elem_of_cons in Hres as [?|Hres]; [done|].
      by apply list_elem_of_singleton in Hres.
    - compute_done. }
  rewrite set_order_length_NoDup by done.
  unfold select_vocab. rewrite length_app, length_fmap, Nat2Z.inj_add.
  fold D. fold k. rewrite py_slice_to_length; [simpl; lia|].
  rewrite Hlen. fold D. lia.
Qed.

Lemma vocabulary_size_witness :
  LabelIndexMap_len (index_maps [PAD; UNK; "a"; "b"]) = 3 + 1.
Proof.
  apply (vocabulary_size dedup_order [["0"; "a a a b b c"]] str_split None
           (index_maps [PAD; UNK; "a"; "b"]) ["a"; "a"; "a"; "b"; "b"; "c"]);
    by vm_compute.
Defined.

(** ** More on the dataset *)

(** X16. With a vocabulary of the builder every token is encoded, and its
    id lies in [[1, len(vocab))]: an id is a valid index into the
    vocabulary and is never 0, the index of [<PAD>]. *)
Theorem token_ids_are_valid_and_never_pad so rows tokenizer max_size m
    (token : string) :
  compute_vocab_map so rows tokenizer max_size = Ok m →
  ∃ i, encode_token m token = Ok i ∧ 1 ≤ i < LabelIndexMap_len m.
Proof.
  intros Hm. pose proof (compute_vocab_map_UNK _ _ _ _ _ Hm) as HUNK.
  pose proof Hm as Hm0. unfold compute_vocab_map in Hm.
  destruct (all_words_of tokenizer rows) as [ws|] eqn:Hws; [|done].
  destruct (compute_vocab_map_Ok so _ _ max_size _ Hws)
    as (labels & Hm' & _ & Hnd & HPAD & HUNK').
  rewrite Hm0 in Hm'. injection Hm' as ->.
  rewrite index_maps_len by done.
  pose proof (lookup_lt_Some _ _ _ HUNK') as Hlen.
  unfold encode_token, dict_getitem.
  rewrite label_to_index_NoDup in HUNK |- * by done. rewrite HUNK.
  exists (default 1 (dict_get (label_items labels) (lower token))).
  split; [done|].
  destruct (dict_get (label_items labels) (lower token)) as [i|] eqn:Hget;
    simpl; [|lia].
  apply dict_get_Some, elem_of_label_items in Hget as [Hi Hget].
  pose proof (lookup_lt_Some _ _ _ Hget).
  assert (i ≠ 0); [|lia]. intros ->.
  change (Z.to_nat 0) with 0%nat in Hget. rewrite HPAD in Hget.
  injection Hget as Heq. by destruct (lower_not_reserved token) as [HP _].
Qed.

Lemma token_ids_are_valid_and_never_pad_witness :
  ∃ i, encode_token (index_maps [PAD; UNK; "a"; "b"]) "<PAD>" = Ok i
       ∧ 1 ≤ i < LabelIndexMap_len (index_maps [PAD; UNK; "a"; "b"]).
Proof.
  apply (token_ids_are_valid_and_never_pad dedup_order [["0"; "a a a b b c"]]
           str_split None).
  by vm_compute.
Defined.

(** X17. With a vocabulary that has no [<UNK>] entry, [get(i)] raises
    [KeyError] on every row whose text has a token, whether or not the
    tokens are in the vocabulary: the fallback is looked up for each
    token before the token itself. *)
Theorem vocabulary_without_unk_raises (lib : Library) (self : ToxicCommentDataset)
    (index : Z) (row : list string) (text : string) (classes : list (float_t lib)) :
  dict_get (label_to_index (vocab self)) UNK = None →
  py_getitem (rows self) index = Ok row →
  py_getitem row 1 = Ok text →
  mapM' (float lib) (py_slice row 2 8) = Ok classes →
  word_tokenize lib text ≠ [] →
  ToxicCommentDataset_getitem lib self index = Raise KeyError.
Proof.
  intros HUNK Hrow Htext Hclasses Htokens.
  unfold ToxicCommentDataset_getitem. rewrite Hrow. simpl.
  rewrite Htext. simpl. rewrite Hclasses. simpl.
  destruct (word_tokenize lib text) as [|token tokens]; [done|].
  assert (encode_token (vocab self) token = Raise KeyError) as Htoken
    by (unfold encode_token, dict_getitem; by rewrite HUNK).
  cbn [mapM']. by rewrite Htoken.
Qed.

Lemma vocabulary_without_unk_raises_witness :
  ToxicCommentDataset_getitem (library_of_rows [])
    {| rows := [["7"; "hello"; "1"; "0"; "0"; "0"; "0"; "1"]];
       vocab := index_maps ["hello"] |} 0
  = Raise KeyError.
Proof.
  apply (vocabulary_without_unk_raises (library_of_rows [])
    {| rows := [["7"; "hello"; "1"; "0"; "0"; "0"; "0"; "1"]];
       vocab := index_maps ["hello"] |} 0
    ["7"; "hello"; "1"; "0"; "0"; "0"; "0"; "1"] "hello" [1; 0; 0; 0; 0; 1]);
    by vm_compute.
Defined.

Lemma py_getitem_negative {A : Type} (l : list A) (i : Z) :
  - Z.of_nat (length l) ≤ i < 0 →
  py_getitem l i = py_getitem l (Z.of_nat (length l) + i).
Proof.
  intros Hi. unfold py_getitem, norm_index.
  rewrite (decide_False (P := 0 ≤ i < _)) by lia.
  rewrite (decide_True (P := _ ≤ i < 0)) by lia.
  by rewrite (decide_True (P := 0 ≤ _ + i < _)) by lia.
Qed.

Lemma py_getitem_out_of_range {A : Type} (l : list A) (i : Z) :
  i < - Z.of_nat (length l) ∨ Z.of_nat (length l) ≤ i →
  py_getitem l i = Raise IndexError.
Proof.
  intros Hi. unfold py_getitem, norm_index.
  rewrite (decide_False (P := 0 ≤ i < _)) by lia.
  by rewrite (decide_False (P := _ ≤ i < 0)) by lia.
Qed.

(** X18. [get(i)] on a dataset of [n] rows raises [IndexError] for
    [i >= n] and for [i < -n], and for [-n <= i < 0] it is [get(n + i)]. *)
Theorem dataset_index_bounds (lib : Library) (self : ToxicCommentDataset) (index : Z) :
  (index < - ToxicCommentDataset_len self ∨ ToxicCommentDataset_len self ≤ index →
     ToxicCommentDataset_getitem lib self index = Raise IndexError)
  ∧ (- ToxicCommentDataset_len self ≤ index < 0 →
     ToxicCommentDataset_getitem lib self index
     = ToxicCommentDataset_getitem lib self (ToxicCommentDataset_len self + index)).
Proof.
  unfold ToxicCommentDataset_getitem, ToxicCommentDataset_len. split; intros Hi.
  - by rewrite py_getitem_out_of_range.
  - by rewrite py_getitem_negative.
Qed.

Lemma dataset_index_bounds_witness :
  ToxicCommentDataset_getitem (library_of_rows [])
    {| rows := [["7"; "hello"; "1"; "0"; "0"; "0"; "0"; "1"]];
       vocab := index_maps [PAD; UNK] |} 1
  = Raise IndexError.
Proof.
  apply (proj1 (dataset_index_bounds (library_of_rows [])
    {| rows := [["7"; "hello"; "1"; "0"; "0"; "0"; "0"; "1"]];
       vocab := index_maps [PAD; UNK] |} 1)).
  right. by vm_compute.
Defined.

Lemma mapM'_length {X Y : Type} (f : X → result Y) (xs : list X) (ys : list Y) :
  mapM' f xs = Ok ys → length ys = length xs.
Proof.
  revert ys. induction xs as [|x xs IH]; intros ys; simpl.
  - by intros [= <-].
  - intros H. apply bind_Ok in H as (y & _ & H).
    apply bind_Ok in H as (ys' & Hys & [= <-]). simpl. f_equal. auto.
Qed.

(** X19. When [get(i)] returns, there is one id for each token of the
    text, and the class vector has the fields 2 to 7 of the row: six
    entries for a row of at least eight fields, fewer for a shorter row,
    without an error. *)
Theorem example_has_tokens_and_at_most_six_classes (lib : Library)
    (self : ToxicCommentDataset) (index : Z) tokens classes :
  ToxicCommentDataset_getitem lib self index = Ok (tokens, classes) →
  ∃ row text,
    py_getitem (rows self) index = Ok row ∧ py_getitem row 1 = Ok text
    ∧ length tokens = length (word_tokenize lib text)
    ∧ length classes = ((length row - 2) `min` 6)%nat.
Proof.
  unfold ToxicCommentDataset_getitem. intros H.
  apply bind_Ok in H as (row & Hrow & H).
  apply bind_Ok in H as (text & Htext & H).
  apply bind_Ok in H as (cs & Hcs & H).
  apply bind_Ok in H as (ts & Hts & [= <- <-]).
  exists row, text. split_and!; [done|done| |].
  - by apply mapM'_length in Hts.
  - apply mapM'_length in Hcs. rewrite Hcs.
    unfold py_slice, slice_bound. simpl.
    rewrite length_drop, length_take. lia.
Qed.

Lemma example_has_tokens_and_at_most_six_classes_witness :
  ∃ row text,
    py_getitem [["7"; "hello you"; "1"; "0"]] 0 = Ok row
    ∧ py_getitem row 1 = Ok text
    ∧ length [2; 1] = length (str_split text)
    ∧ length [1; 0] = ((length row - 2) `min` 6)%nat.
Proof.
  apply (example_has_tokens_and_at_most_six_classes (library_of_rows [])
    {| rows := [["7"; "hello you"; "1"; "0"]];
       vocab := index_maps [PAD; UNK; "hello"] |} 0 [2; 1] [1; 0]).
  by vm_compute.
Defined.



(** X21. The set-up of the training script after [compute_vocab] has
    written the vocabulary file of the same corpus with the default
    tokenizer: it succeeds, both datasets carry the loaded vocabulary, in
    which [<UNK>] has index 1, and the collator pads with 0, the index of
    [<PAD>]. *)
Theorem train_setup_after_compute_vocab lib so (fs fs' : gmap string string)
    (max_size : option Z) :
  compute_vocab lib so fs train_csv vocab_txt str_split max_size = Ok fs' →
  ∃ ds_train ds_val collate_fn,
    train_setup lib so fs' = Ok (ds_train, ds_val, collate_fn)
    ∧ vocab ds_val = vocab ds_train
    ∧ LabelIndexMap_getitem (vocab ds_train) UNK = Ok 1
    ∧ pad_value collate_fn = 0.
Proof.
  intros Hcv. pose proof Hcv as Hcv0. unfold compute_vocab in Hcv.
  apply bind_Ok in Hcv as (text & Htext & Hcv).
  apply bind_Ok in Hcv as (m0 & _ & [= <-]).
  assert (write_file fs vocab_txt (str_concat (vocab_line <$> label_to_index m0))
            !! train_csv = Some text) as Hfile.
  { unfold write_file. rewrite lookup_insert_ne by done.
    unfold read_file in Htext. by destruct (fs !! train_csv); simplify_eq. }
  destruct (produce_datasets_of_vocab_file lib so fs _ train_csv vocab_txt
              max_size script_val_ratio text Hcv0 Hfile)
    as (m & train & val & Hsplit & Htrain & Hval & HPAD & HUNK).
  exists train, val, {| pad_value := 0 |}. unfold train_setup.
  rewrite Hsplit. simpl. unfold dict_getitem. rewrite Htrain, HPAD. simpl.
  split_and!; [done|congruence| |done].
  unfold LabelIndexMap_getitem, dict_getitem. by rewrite HUNK.
Qed.

Lemma train_setup_after_compute_vocab_witness :
  ∃ ds_train ds_val collate_fn,
    train_setup (library_of_rows [["id"; "text"]; ["0"; "b a b"]]) dedup_order
      (write_file {[train_csv := ""]} vocab_txt
         ("<PAD> 0" +:+ String newline ("<UNK> 1" +:+ String newline
            ("b 2" +:+ String newline ""))))
    = Ok (ds_train, ds_val, collate_fn)
    ∧ pad_value collate_fn = 0.
Proof.
  destruct (train_setup_after_compute_vocab
              (library_of_rows [["id"; "text"]; ["0"; "b a b"]]) dedup_order
              {[train_csv := ""]}
              (write_file {[train_csv := ""]} vocab_txt
                 ("<PAD> 0" +:+ String newline ("<UNK> 1" +:+ String newline
                    ("b 2" +:+ String newline ""))))
              (Some 2))
    as (ds_train & ds_val & collate_fn & Hsetup & _ & _ & Hpad).
  - by vm_compute.
  - by exists ds_train, ds_val, collate_fn.
Defined.

(** ** More on the collator *)

(** X22. The collator rejects a batch it cannot shape: an example without
    any tensor raises [IndexError]; an empty batch, and a batch in which
    two examples have different numbers of tensors, raise [ValueError]. *)
Theorem collate_rejects_unshapable_batches (self : CollatePad) (batch : list example) :
  ([] ∈ batch → CollatePad_call self batch = Raise IndexError)
  ∧ (Forall (λ ex : example, ex ≠ []) batch →
     batch = [] ∨ (∃ ex1 ex2, ex1 ∈ batch ∧ ex2 ∈ batch ∧ length ex1 ≠ length ex2) →
     CollatePad_call self batch = Raise ValueError).
Proof.
  unfold CollatePad_call. split.
  - intros Hin. rewrite bool_decide_eq_false_2; [done|].
    rewrite Forall_forall. intros Hall. by apply (Hall [] Hin).
  - intros Hall Hbad. rewrite bool_decide_eq_true_2 by done.
    pose proof (sorted_Permutation group0_len true batch) as Hperm.
    destruct (sorted group0_len true batch) as [|ex sb] eqn:Hsb; [done|].
    destruct Hbad as [->|(ex1 & ex2 & H1 & H2 & Hne)]; [done|].
    simpl. rewrite bool_decide_eq_false_2; [done|].
    rewrite Forall_fmap, Forall_forall. intros Hsame. apply Hne.
    assert (∀ x, x ∈ batch → length x = length ex) as Hlen.
    { intros x Hx. rewrite <- Hperm in Hx.
      apply elem_of_cons in Hx as [->|Hx]; [done|].
      specialize (Hsame x Hx). simpl in Hsame.
      by rewrite !length_fmap in Hsame. }
    by rewrite (Hlen ex1), (Hlen ex2).
Qed.

Lemma collate_rejects_unshapable_batches_witness :
  CollatePad_call {| pad_value := 0 |} [[[1; 2]; [0]]; [[3]]] = Raise ValueError.
Proof.
  apply (proj2 (collate_rejects_unshapable_batches {| pad_value := 0 |}
                  [[[1; 2]; [0]]; [[3]]])).
  - repeat constructor; done.
  - right. exists [[1; 2]; [0]], [[3]]. split_and!; [compute_done..|done].
Defined.

Lemma max_list_bound (x : nat) (l : list nat) :
  Forall (λ y, y ≤ x)%nat l → (max_list l ≤ x)%nat.
Proof. induction 1; simpl; lia. Qed.

(** X23. The length vector of group 0 is in descending order, as packing
    of padded sequences needs it, and its first entry is the width of the
    padded group-0 array. *)
Theorem group0_lengths_descend (self : CollatePad) (batch : list example) (G : nat) :
  batch ≠ [] → (0 < G)%nat → Forall (λ ex : example, length ex = G) batch →
  ∃ padded lengths (arr0 : list tensor) (lens0 : list nat),
    CollatePad_call self batch = Ok (padded, lengths)
    ∧ padded !! 0%nat = Some arr0 ∧ lengths !! 0%nat = Some lens0
    ∧ StronglySorted (λ a b, b ≤ a)%nat lens0
    ∧ Forall (λ row, head lens0 = Some (length row)) arr0.
Proof.
  intros Hne HG Hlen.
  pose proof (sorted_Permutation group0_len true batch) as Hperm.
  pose proof (sorted_StronglySorted group0_len true batch) as Hsorted.
  set (sb := sorted group0_len true batch) in *.
  eexists _, _,
    ((λ ex, pad_to (pad_value self) (max_len 0 batch) (ex !!! 0%nat)) <$> sb),
    (group_len 0 <$> sb).
  split; [by apply (CollatePad_call_Ok self batch G)|]. fold sb.
  rewrite !list_lookup_fmap, lookup_seq_lt by done. simpl.
  assert (StronglySorted (λ a b, b ≤ a)%nat (group_len 0 <$> sb)) as Hdesc.
  { eapply StronglySorted_fmap; [|exact Hsorted].
    intros a b. unfold in_order. rewrite !group0_len_eq. lia. }
  split_and!; [done|done|done|].
  assert (head (group_len 0 <$> sb) = Some (max_len 0 batch)) as ->.
  { unfold max_len.
    rewrite <- (max_list_Permutation _ _ (fmap_Permutation (group_len 0) _ _ Hperm)).
    destruct sb as [|ex sb'].
    - apply Permutation_nil_l in Hperm. by subst.
    - simpl in *. f_equal. apply StronglySorted_cons in Hdesc as [Hle _].
      pose proof (max_list_bound _ _ Hle). lia. }
  apply Forall_fmap, Forall_forall. intros ex Hex. simpl. f_equal. symmetry.
  apply pad_to_length, max_list_elem_of_le, list_elem_of_fmap.
  exists ex. split; [done|]. by rewrite <- Hperm.
Qed.

Lemma group0_lengths_descend_witness :
  ∃ padded lengths,
    CollatePad_call {| pad_value := 0 |} [[[1; 1]]; [[2; 2; 2]]; [[3]]]
    = Ok (padded, lengths)
    ∧ lengths !! 0%nat = Some [3; 2; 1]%nat.
Proof.
  destruct (group0_lengths_descend {| pad_value := 0 |}
              [[[1; 1]]; [[2; 2; 2]]; [[3]]] 1)
    as (padded & lengths & arr0 & lens0 & Hcall & _).
  - done.
  - lia.
  - repeat constructor.
  - exists padded, lengths. split; [done|].
    vm_compute in Hcall. by injection Hcall as <- <-.
Defined.

Lemma sorted_sorted_id {A : Type} (key : A → Z) (reverse : bool) (l : list A) :
  StronglySorted (in_order key reverse) l → sorted key reverse l = l.
Proof.
  induction 1 as [|x l _ IH Hx]; [done|].
  simpl. rewrite IH. destruct l as [|y l]; [done|]. simpl.
  apply Forall_cons in Hx as [Hxy _].
  by rewrite (proj2 (stays_before_true key reverse x y) Hxy).
Qed.

(** X24. A batch that already is in descending order of group-0 length
    keeps its order: row [i] of every array is example [i] of the batch,
    padded, and entry [i] of every length vector is its length. *)
Theorem sorted_batch_keeps_its_order (self : CollatePad) (batch : list example)
    (G : nat) :
  batch ≠ [] → (0 < G)%nat → Forall (λ ex : example, length ex = G) batch →
  StronglySorted (λ a b, group_len 0 b ≤ group_len 0 a)%nat batch →
  CollatePad_call self batch
  = Ok ((λ g, (λ ex, pad_to (pad_value self) (max_len g batch) (ex !!! g))
                <$> batch) <$> seq 0 G,
        (λ g, group_len g <$> batch) <$> seq 0 G).
Proof.
  intros Hne HG Hlen Hsorted.
  rewrite (CollatePad_call_Ok self batch G) by done.
  rewrite sorted_sorted_id; [done|].
  eapply StronglySorted_weaken; [|exact Hsorted].
  intros a b. unfold in_order. rewrite !group0_len_eq. lia.
Qed.

Lemma sorted_batch_keeps_its_order_witness :
  CollatePad_call {| pad_value := 0 |} [[[2; 2; 2]]; [[1; 1]]; [[4; 4]]]
  = Ok ([[[2; 2; 2]; [1; 1; 0]; [4; 4; 0]]], [[3; 2; 2]%nat]).
Proof.
  rewrite (sorted_batch_keeps_its_order {| pad_value := 0 |}
             [[[2; 2; 2]]; [[1; 1]]; [[4; 4]]] 1).
  - by vm_compute.
  - done.
  - lia.
  - repeat constructor.
  - repeat constructor; simpl; lia.
Defined.

(** X25. The padding can be undone: in every group, the first [n] entries
    of a row, with [n] the entry of the length vector for that row, are
    the sequence of an example of the batch, whose length is [n]. *)
Theorem padded_row_restores_sequence (self : CollatePad) (batch : list example)
    (G : nat) padded lengths (g i : nat) arr lens row (n : nat) :
  batch ≠ [] → (0 < G)%nat → Forall (λ ex : example, length ex = G) batch →
  CollatePad_call self batch = Ok (padded, lengths) →
  padded !! g = Some arr → lengths !! g = Some lens →
  arr !! i = Some row → lens !! i = Some n →
  ∃ ex, ex ∈ batch ∧ take n row = ex !!! g ∧ n = length (ex !!! g).
Proof.
  intros Hne HG Hlen Hcall Harr Hlens Hrow Hn.
  rewrite (CollatePad_call_Ok self batch G) in Hcall by done.
  injection Hcall as <- <-.
  pose proof (sorted_Permutation group0_len true batch) as Hperm.
  set (sb := sorted group0_len true batch) in *.
  rewrite list_lookup_fmap in Harr. rewrite list_lookup_fmap in Hlens.
  destruct (seq 0 G !! g) as [g'|] eqn:Hg; [|done].
  apply lookup_seq in Hg as [-> _]. simpl in Harr, Hlens.
  injection Harr as <-. injection Hlens as <-.
  rewrite list_lookup_fmap in Hrow. rewrite list_lookup_fmap in Hn.
  destruct (sb !! i) as [ex|] eqn:Hex; [|done].
  simpl in Hrow, Hn. injection Hrow as <-. injection Hn as <-.
  exists ex. split_and!; [|by apply take_app_length|done].
  rewrite <- Hperm. by eapply list_elem_of_lookup_2.
Qed.

Lemma padded_row_restores_sequence_witness :
  ∃ ex, ex ∈ [[[1; 1]]; [[2; 2; 2]]; [[3]]]
        ∧ take 2 [1; 1; 0] = ex !!! 0%nat ∧ 2%nat = length (ex !!! 0%nat).
Proof.
  apply (padded_row_restores_sequence {| pad_value := 0 |}
           [[[1; 1]]; [[2; 2; 2]]; [[3]]] 1
           [[[2; 2; 2]; [1; 1; 0]; [3; 0; 0]]] [[3; 2; 1]%nat] 0 1
           [[2; 2; 2]; [1; 1; 0]; [3; 0; 0]] [3; 2; 1]%nat [1; 1; 0] 2);
    try done.
  - lia.
  - repeat constructor.
Defined.

(** ** Ties between equally frequent tokens *)

Lemma filter_app_inv {A : Type} (P : A → Prop) `{∀ x, Decision (P x)}
    (l f1 f2 : list A) :
  filter P l = f1 ++ f2 →
  ∃ l1 l2, l = l1 ++ l2 ∧ filter P l1 = f1 ∧ filter P l2 = f2.
Proof.
  revert f1. induction l as [|x l IH]; intros f1 Hf.
  - symmetry in Hf. apply app_eq_nil in Hf as [-> ->]. by exists [], [].
  - rewrite filter_cons in Hf. destruct (decide (P x)) as [HP|HP].
    + destruct f1 as [|y f1].
      * exists [], (x :: l). split_and!; [done..|].
        by rewrite filter_cons, decide_True.
      * injection Hf as -> Hf. destruct (IH _ Hf) as (l1 & l2 & -> & H1 & H2).
        exists (y :: l1), l2. split_and!; [done| |done].
        by rewrite filter_cons, decide_True, H1.
    + destruct (IH _ Hf) as (l1 & l2 & -> & H1 & H2).
      exists (x :: l1), l2. split_and!; [done| |done].
      by rewrite filter_cons, decide_False.
Qed.

(** In a list without repetition, the order of two elements can be read
    off any filtered copy that holds both. *)
Lemma filter_order {A : Type} (P : A → Prop) `{∀ x, Decision (P x)}
    (l f1 f2 : list A) (a b : A) (i j : nat) :
  NoDup l → filter P l = f1 ++ f2 → a ∈ f1 → b ∈ f2 →
  l !! i = Some a → l !! j = Some b → (i < j)%nat.
Proof.
  intros Hnd Hf Ha Hb Hi Hj.
  apply filter_app_inv in Hf as (l1 & l2 & -> & <- & <-).
  apply list_elem_of_filter in Ha as [_ Ha], Hb as [_ Hb].
  apply NoDup_app in Hnd as (_ & Hdisj & _).
  assert (i < length l1)%nat.
  { destruct (decide (i < length l1)%nat) as [|Hge]; [done|].
    rewrite lookup_app_r in Hi by lia.
    apply list_elem_of_lookup_2 in Hi. by destruct (Hdisj a). }
  assert (length l1 ≤ j)%nat; [|lia].
  destruct (decide (length l1 ≤ j)%nat) as [|Hlt]; [done|].
  rewrite lookup_app_l in Hj by lia.
  apply list_elem_of_lookup_2 in Hj. by destruct (Hdisj b).
Qed.

Lemma count_loop_keys_prefix ws (d : list (string * Z)) :
  ∃ ext,
    (foldl (λ occurrences word,
              dict_set occurrences word (default 0 (dict_get occurrences word) + 1))
           d ws).*1 = d.*1 ++ ext.
Proof.
  revert d. induction ws as [|w ws IH]; intros d.
  - exists []. by rewrite app_nil_r.
  - simpl. destruct (IH (dict_set d w (default 0 (dict_get d w) + 1))) as [ext ->].
    rewrite dict_set_keys. case_decide; [by exists ext|].
    exists (w :: ext). by rewrite <- app_assoc.
Qed.

(** The frequency dict lists a word that is seen before another one in
    front of it. *)
Lemma count_occurrences_first_seen pre rest (w1 w2 : string) :
  w2 ∉ pre → w1 ≠ w2 → w2 ∈ rest →
  ∃ oa ob, count_occurrences (pre ++ w1 :: rest) = oa ++ ob
           ∧ w1 ∈ oa.*1 ∧ w2 ∈ ob.*1.
Proof.
  intros Hpre Hne Hrest. unfold count_occurrences.
  rewrite (cons_middle w1 pre rest), app_assoc, foldl_app.
  set (step := λ (occurrences : list (string * Z)) (word : string),
         dict_set occurrences word (default 0 (dict_get occurrences word) + 1)).
  set (d1 := foldl step [] (pre ++ [w1])).
  destruct (count_loop_keys_prefix rest d1) as [ext Hkeys]. fold step in Hkeys.
  apply fmap_app_inv in Hkeys as (oa & ob & Hoa & Hob & Hocc).
  exists oa, ob. split; [done|].
  assert (dict_get d1 w1 ≠ None) as H1.
  { unfold d1, step. rewrite count_occurrences_go.
    assert (w1 ∈ pre ++ [w1]) as Hin by (apply elem_of_app; right; left).
    apply occurrences_of_elem_of in Hin.
    by destruct (occurrences_of w1 (pre ++ [w1])); [lia|]. }
  assert (dict_get d1 w2 = None) as H2.
  { unfold d1, step. rewrite count_occurrences_go.
    rewrite occurrences_of_absent; [done|].
    rewrite elem_of_app, list_elem_of_singleton. by intros [?|?]. }
  rewrite dict_get_None in H1, H2. rewrite <- Hoa. split.
  - by destruct (decide (w1 ∈ d1.*1)).
  - assert (w2 ∈ (foldl step d1 rest).*1) as Hin.
    { destruct (decide (w2 ∈ (foldl step d1 rest).*1)) as [|Hnot]; [done|].
      exfalso. apply dict_get_None in Hnot. unfold step in Hnot.
      rewrite count_occurrences_go in Hnot.
      apply occurrences_of_elem_of in Hrest.
      by destruct (occurrences_of w2 rest); [lia|]. }
    rewrite Hocc, fmap_app, <- Hoa in Hin.
    by apply elem_of_app in Hin as [?|?].
Qed.

(** X26. Ties are decided by the order of first occurrence: when two
    tokens occur equally often and the one seen second in the rows is in
    the vocabulary, the one seen first is in the vocabulary too. *)
Theorem ties_keep_first_seen_token so rows tokenizer max_size m
    (pre rest : list string) (w1 w2 : string) (i : Z) :
  all_words_of tokenizer rows = Ok (pre ++ w1 :: rest) →
  compute_vocab_map so rows tokenizer max_size = Ok m →
  w2 ∉ pre → w1 ≠ w2 →
  occurrences_of w1 (pre ++ w1 :: rest) = occurrences_of w2 (pre ++ w1 :: rest) →
  LabelIndexMap_getitem m w2 = Ok i →
  ∃ j, LabelIndexMap_getitem m w1 = Ok j.
Proof.
  intros Hws Hm Hpre Hne Hcount Hw2.
  set (ws := pre ++ w1 :: rest) in *.
  destruct (compute_vocab_map_Ok so _ _ max_size _ Hws)
    as (labels & Hm' & Hperm & Hnd & _).
  rewrite Hm in Hm'. injection Hm' as ->.
  assert (w1 ∈ ws) as Hw1ws by (apply elem_of_app; right; left).
  pose proof (occurrences_of_elem_of _ _ Hw1ws) as Hpos.
  assert (w2 ∈ rest) as Hrest.
  { destruct (decide (w2 ∈ ws)) as [Hin|Hnot].
    - apply elem_of_app in Hin as [?|Hin]; [done|].
      by apply elem_of_cons in Hin as [?|?].
    - rewrite (occurrences_of_absent w2 ws) in Hcount by done. lia. }
  set (n := Z.of_nat (occurrences_of w1 ws)).
  set (occ := count_occurrences ws) in *.
  set (ranked := sorted snd true occ).
  set (k := slice_bound (length ranked)
              (default (Z.of_nat (length occ)) max_size - 1)).
  assert (∀ x, x ∈ labels ↔ x ∈ (take k ranked).*1 ∨ x = PAD ∨ x = UNK) as Hlabels.
  { intros x. rewrite Hperm, set_order_elem_of. unfold select_vocab, py_slice_to.
    fold occ ranked k. rewrite elem_of_app, !elem_of_cons, elem_of_nil. tauto. }
  assert ((w1, n) ∈ occ ∧ (w2, n) ∈ occ) as [H1 H2].
  { split; apply count_occurrences_elem_of; split; try done.
    - apply elem_of_app. right. by right.
    - unfold n. by rewrite Hcount. }
  assert (NoDup ranked) as Hndr.
  { unfold ranked. rewrite sorted_Permutation.
    eapply NoDup_fmap_1, count_occurrences_NoDup. }
  destruct (count_occurrences_first_seen pre rest w1 w2 Hpre Hne Hrest)
    as (oa & ob & Hocc & Ha & Hb).
  fold ws occ in Hocc.
  pose proof (count_occurrences_NoDup ws) as Hkeys. fold occ in Hkeys.
  rewrite Hocc, fmap_app in Hkeys. apply NoDup_app in Hkeys as (_ & Hdisj & _).
  assert ((w1, n) ∈ oa) as H1a.
  { rewrite Hocc in H1. apply elem_of_app in H1 as [?|H1]; [done|].
    destruct (Hdisj w1 Ha). apply list_elem_of_fmap. by exists (w1, n). }
  assert ((w2, n) ∈ ob) as H2b.
  { rewrite Hocc in H2. apply elem_of_app in H2 as [H2|?]; [|done].
    destruct (Hdisj w2); [|done]. apply list_elem_of_fmap. by exists (w2, n). }
  apply getitem_lookup in Hw2 as [_ Hw2]; [|done].
  pose proof (proj1 (Hlabels _) (list_elem_of_lookup_2 _ _ _ Hw2)) as Hsel.
  clear Hw2. destruct Hsel as [Hsel|[->| ->]].
  - apply list_elem_of_fmap in Hsel as ([w n2] & -> & Hin). simpl in *.
    assert (n2 = n) as ->.
    { apply subseteq_take in Hin. unfold ranked in Hin.
      rewrite sorted_Permutation in Hin.
      apply count_occurrences_elem_of in Hin as [_ ->].
      unfold n. by rewrite Hcount. }
    apply elem_of_take in Hin as (j2 & Hj2 & Hlt).
    assert ((w1, n) ∈ ranked) as Hr1 by (unfold ranked; by rewrite sorted_Permutation).
    apply list_elem_of_lookup in Hr1 as [j1 Hj1].
    assert (j1 < j2)%nat as Hord.
    { eapply (filter_order (λ kv : string * Z, kv.2 = n) ranked
                (filter (λ kv : string * Z, kv.2 = n) oa)
                (filter (λ kv : string * Z, kv.2 = n) ob) (w1, n) (w, n));
        try done.
      - unfold ranked. by rewrite sorted_stable, Hocc, filter_app.
      - by apply list_elem_of_filter.
      - by apply list_elem_of_filter. }
    assert (w1 ∈ labels) as Hin1.
    { apply Hlabels. left. apply list_elem_of_fmap. exists (w1, n).
      split; [done|]. apply elem_of_take. exists j1. split; [done|lia]. }
    apply list_elem_of_lookup in Hin1 as [j Hj]. exists (Z.of_nat j).
    apply getitem_lookup; [done|]. rewrite Nat2Z.id. split; [lia|done].
  - exfalso.
    assert (PAD ∈ ws) as Hin.
    { apply elem_of_app. right. by right. }
    pose proof (all_words_of_lower _ _ _ Hws) as Hlower.
    rewrite Forall_forall in Hlower. destruct (Hlower _ Hin) as [t Ht].
    by destruct (lower_not_reserved t).
  - exfalso.
    assert (UNK ∈ ws) as Hin.
    { apply elem_of_app. right. by right. }
    pose proof (all_words_of_lower _ _ _ Hws) as Hlower.
    rewrite Forall_forall in Hlower. destruct (Hlower _ Hin) as [t Ht].
    by destruct (lower_not_reserved t).
Qed.

Lemma ties_keep_first_seen_token_witness :
  ∃ j, LabelIndexMap_getitem (index_maps [PAD; UNK; "b"; "c"]) "b" = Ok j.
Proof.
  apply (ties_keep_first_seen_token dedup_order [["0"; "b c"]] str_split (Some 3)
           (index_maps [PAD; UNK; "b"; "c"]) [] ["c"] "b" "c" 3).
  - by vm_compute.
  - by vm_compute.
  - by intros ?%elem_of_nil.
  - done.
  - by vm_compute.
  - by vm_compute.
Defined.

(** ** Edge cases of the builder and of [len] *)

(** X27. When the rows hold no token at all (no rows, or only empty
    texts), the vocabulary consists of the two reserved tokens, for every
    [max_size]. *)
Theorem corpus_without_tokens_gives_reserved_vocabulary
    so rows tokenizer (max_size : option Z) :
  all_words_of tokenizer rows = Ok [] →
  compute_vocab_map so rows tokenizer max_size = Ok (index_maps [PAD; UNK]).
Proof.
  intros Hws.
  destruct (compute_vocab_map_Ok so _ _ max_size _ Hws)
    as (labels & Hm & Hperm & Hnd & HPAD & HUNK).
  rewrite Hm. do 2 f_equal.
  assert (length labels = 2%nat) as Hlen.
  { rewrite Hperm. unfold select_vocab, py_slice_to. simpl. rewrite take_nil.
    by rewrite set_order_length_NoDup by compute_done. }
  destruct labels as [|a [|b [|c labels]]]; simplify_eq/=. done.
Qed.

Lemma corpus_without_tokens_gives_reserved_vocabulary_witness :
  compute_vocab_map dedup_order [["0"; "  "]] str_split (Some 10)
  = Ok (index_maps [PAD; UNK]).
Proof.
  apply corpus_without_tokens_gives_reserved_vocabulary. by vm_compute.
Defined.

Lemma dict_of_keys_NoDup {K V : Type} `{EqDecision K} (kvs : list (K * V)) :
  NoDup (dict_of kvs).*1.
Proof.
  unfold dict_of.
  assert (∀ d : list (K * V), NoDup d.*1 →
            NoDup (foldl (λ d kv, dict_set d kv.1 kv.2) d kvs).*1) as Hgo;
    [|apply Hgo; constructor].
  induction kvs as [|kv kvs IH]; intros d Hd; [done|].
  simpl. apply IH. by apply dict_set_keys_NoDup.
Qed.

(** X28. For every constructed map, whatever the arguments of the
    constructor, [len] is the number of distinct labels of [all_labels],
    also when the sorted label list holds repetitions. *)
Theorem len_counts_distinct_labels so all_labels sort_key required_mappings m :
  LabelIndexMap_init so all_labels sort_key required_mappings = Ok m →
  LabelIndexMap_len m = Z.of_nat (length (set_order so all_labels)).
Proof.
  intros (Hm & Hin & _)%LabelIndexMap_init_elements.
  unfold LabelIndexMap_len. f_equal.
  rewrite <- (length_fmap fst (label_to_index m)).
  apply Permutation_length, NoDup_Permutation.
  - rewrite Hm. apply dict_of_keys_NoDup.
  - apply set_order_NoDup.
  - intros x. rewrite set_order_elem_of, <- Hin.
    pose proof (label_to_index_get (individual_labels m) x) as Hget.
    rewrite <- Hm in Hget.
    destruct (dict_get (label_to_index m) x) as [i|] eqn:Hx.
    + destruct Hget as [_ Hget]. split; intros _.
      * by eapply list_elem_of_lookup_2.
      * apply dict_get_Some in Hx. apply list_elem_of_fmap. by exists (x, i).
    + apply dict_get_None in Hx. split; [done|]. by intros ?.
Qed.

Lemma len_counts_distinct_labels_witness :
  LabelIndexMap_len (index_maps ["a"; "a"; "b"]) = 2.
Proof.
  rewrite (len_counts_distinct_labels dedup_order ["a"; "a"; "b"]
             (Some key_len) None); by vm_compute.
Defined.
